(** * simpleAdvertisingCRM: the lead-assignment handler and its window parser

    A shallow embedding of [assignLead] and [parseTimePeriod] (main.go) with
    the [Client] and [TimePeriod] structs, over
    - a model of the few functions of Go's [strings] and [time] packages the
      two functions call ([strings.Split], [time.Parse] with the layout
      15:04, [time.Date], [Time.Date], [Time.Hour], [Time.Minute],
      [Time.After], [Time.Before]);
    - the [clients] table as a finite map from the primary key [id] to the
      remaining columns, with the two SQL statements of [assignLead] as
      functions on it.
    Go's [int] and SQLite's INTEGER are both 64-bit; no arithmetic of the
    handler leaves that range (the only addition is guarded by a comparison
    with another stored value), so integers are modelled in [Z].

    The other handlers of main.go ([createNewClient], [retrieveAllClients],
    [retrieveClient]) and the routing of [startServer] follow, over the
    database file of [setupDatabase]: the table and the AUTOINCREMENT
    counter. *)

From Stdlib Require Import ZArith Ascii String List Lia Bool.
From stdpp Require Import base option list gmap sorting.

Local Open Scope Z_scope.

(** ** Results of fallible Go functions: a value or an [error] *)

Inductive result (A E : Type) : Type :=
  | Ok (a : A)
  | Err (e : E).
Arguments Ok {A E} a.
Arguments Err {A E} e.

(** ** Go's [strings.Split] with a one-byte separator *)

Module GoStrings.

(** [strings.Split(s, sep)]: the substrings between the occurrences of [sep];
    [n] occurrences give [n + 1] parts, so the result is never empty. *)
Fixpoint Split (s : string) (sep : ascii) : list string :=
  match s with
  | EmptyString => [EmptyString]
  | String c rest =>
      if Ascii.eqb c sep then EmptyString :: Split rest sep
      else match Split rest sep with
           | part :: parts => String c part :: parts
           | [] => [String c EmptyString]
           end
  end.

End GoStrings.

(** ** Go's [time] package, as far as the handler uses it *)

Module GoTime.

(** A location is represented by the offset (seconds east of UTC) in force
    at the instant the value was read. *)
Record Location : Type := mkLocation { zoneOffset : Z }.

Definition UTC : Location := mkLocation 0.

(** A [time.Time] without monotonic reading: seconds since
    0001-01-01 00:00:00 UTC, nanoseconds within the second, and a location
    used for presentation only. *)
Record Time : Type := mkTime { wallSec : Z; nsec : Z; loc : Location }.

Definition secondsPerMinute : Z := 60.
Definition secondsPerHour : Z := 60 * secondsPerMinute.
Definition secondsPerDay : Z := 24 * secondsPerHour.
Definition daysPer400Years : Z := 365 * 400 + 97.
Definition daysPer100Years : Z := 365 * 100 + 24.
Definition daysPer4Years : Z := 365 * 4 + 1.

Definition isLeap (year : Z) : bool :=
  (year mod 4 =? 0) && (negb (year mod 100 =? 0) || (year mod 400 =? 0)).

(** [daysBefore[m]]: days in a non-leap year before month [m + 1]. *)
Definition daysBefore (m : Z) : Z :=
  nth (Z.to_nat m) [0; 31; 59; 90; 120; 151; 181; 212; 243; 273; 304; 334; 365] 0.

(** Days from 0001-01-01 to January 1 of [year]. *)
Definition daysSinceEpoch (year : Z) : Z :=
  let y := year - 1 in 365 * y + y / 4 - y / 100 + y / 400.

(** [norm(hi, lo, base)]: carry [lo] into [hi] so that [0 <= lo < base]. *)
Definition norm (hi lo base : Z) : Z * Z := (hi + lo / base, lo mod base).

(** [time.Date(year, month, day, hour, min, sec, nsec, loc)]. *)
Definition Date (year month day hour min sec ns : Z) (l : Location) : Time :=
  let '(year, m) := norm year (month - 1) 12 in
  let month := m + 1 in
  let '(sec, ns) := norm sec ns 1000000000 in
  let '(min, sec) := norm min sec 60 in
  let '(hour, min) := norm hour min 60 in
  let '(day, hour) := norm day hour 24 in
  let d := daysSinceEpoch year + daysBefore (month - 1)
           + (if isLeap year && (3 <=? month) then 1 else 0)
           + (day - 1) in
  let abs := d * secondsPerDay + hour * secondsPerHour
             + min * secondsPerMinute + sec in
  mkTime (abs - zoneOffset l) ns l.

(** [t.abs()]: the seconds shown on a clock at [t]'s location. *)
Definition abs (t : Time) : Z := wallSec t + zoneOffset (loc t).

Definition Hour (t : Time) : Z := (abs t mod secondsPerDay) / secondsPerHour.
Definition Minute (t : Time) : Z := (abs t mod secondsPerHour) / secondsPerMinute.
Definition Second (t : Time) : Z := abs t mod secondsPerMinute.
Definition Nanosecond (t : Time) : Z := nsec t.
Definition Location_of (t : Time) : Location := loc t.

(** [absDate]: the year and the day within the year of an absolute time. *)
Definition absDate (a : Z) : Z * Z :=
  let d := a / secondsPerDay in
  let n := d / daysPer400Years in
  let y := 400 * n in
  let d := d - daysPer400Years * n in
  let n := d / daysPer100Years in
  let n := n - Z.shiftr n 2 in
  let y := y + 100 * n in
  let d := d - daysPer100Years * n in
  let n := d / daysPer4Years in
  let y := y + 4 * n in
  let d := d - daysPer4Years * n in
  let n := d / 365 in
  let n := n - Z.shiftr n 2 in
  let y := y + n in
  let d := d - 365 * n in
  (y + 1, d).

(** [t.Date()]: year, month and day of [t] in its location. *)
Definition DateOf (t : Time) : Z * Z * Z :=
  let '(year, yday) := absDate (abs t) in
  let leap := isLeap year in
  if leap && (yday =? 31 + 29 - 1) then (year, 2, 29)
  else
    let day := if leap && (31 + 29 - 1 <? yday) then yday - 1 else yday in
    let month := day / 31 in
    let e := daysBefore (month + 1) in
    if e <=? day then (year, month + 2, day - e + 1)
    else (year, month + 1, day - daysBefore month + 1).

(** [t.After(u)] and [t.Before(u)] on wall-clock readings. *)
Definition After (t u : Time) : bool :=
  (wallSec u <? wallSec t) || ((wallSec t =? wallSec u) && (nsec u <? nsec t)).

Definition Before (t u : Time) : bool :=
  (wallSec t <? wallSec u) || ((wallSec t =? wallSec u) && (nsec t <? nsec u)).

(** *** [time.Parse] with the layout 15:04 *)

Inductive ParseError : Type :=
  | BadValue (layoutElem valueElem : string)
  | OutOfRange (what : string)
  | ExtraText (rest : string).

Definition isDigitByte (c : ascii) : bool :=
  let n := nat_of_ascii c in (48 <=? n)%nat && (n <=? 57)%nat.

Definition digitVal (c : ascii) : Z := Z.of_nat (nat_of_ascii c) - 48.

(** [getnum(s, fixed)]: one or two leading digits ([fixed] forces two). *)
Definition getnum (s : string) (fixed : bool) : option (Z * string) :=
  match s with
  | String c0 r0 =>
      if isDigitByte c0 then
        match r0 with
        | String c1 r1 =>
            if isDigitByte c1 then Some (digitVal c0 * 10 + digitVal c1, r1)
            else if fixed then None else Some (digitVal c0, r0)
        | EmptyString => if fixed then None else Some (digitVal c0, r0)
        end
      else None
  | EmptyString => None
  end.

(** [skip(value, prefix)]: remove the literal [prefix] of the layout from
    [value]. The layout 15:04 has no space, so the branch of [skip] that lets
    a space of the layout match a run of spaces is left out. *)
Fixpoint skip (value prefix : string) : option string :=
  match prefix with
  | EmptyString => Some value
  | String p prefix' =>
      match value with
      | String v value' => if Ascii.eqb v p then skip value' prefix' else None
      | EmptyString => None
      end
  end.

(** [time.Parse(15:04, value)]: the chunks of the layout are the hour (one
    or two digits), the literal colon and the two-digit minute; a missing
    date defaults to January 1 of year 0 and the zone to UTC. *)
Definition Parse_15_04 (value : string) : result Time ParseError :=
  match getnum value false with
  | None => Err (BadValue "15" value)
  | Some (hour, value1) =>
      if (hour <? 0) || (24 <=? hour) then Err (OutOfRange "hour")
      else
        match skip value1 ":" with
        | None => Err (BadValue ":" value1)
        | Some value2 =>
            match getnum value2 true with
            | None => Err (BadValue "04" value2)
            | Some (min, value3) =>
                if (min <? 0) || (60 <=? min) then Err (OutOfRange "minute")
                else
                  match value3 with
                  | EmptyString => Ok (Date 0 1 1 hour min 0 0 UTC)
                  | _ => Err (ExtraText value3)
                  end
            end
        end
  end.

End GoTime.

Import GoTime.

(** ** The structs of the repository *)

(** [Client]: a row of the [clients] table as the handlers scan it. *)
Record Client : Type := mkClient {
  ID : Z;
  Name : string;
  WorkingHours : string;
  Priority : Z;
  LeadCapacity : Z;
  ExistingLeads : Z
}.

Record TimePeriod : Type := mkTimePeriod { Start : Time; End : Time }.

(** The zero value [time.Time{}] and the zero value of [TimePeriod]. *)
Definition zeroTime : Time := mkTime 0 0 UTC.
Definition zeroPeriod : TimePeriod := mkTimePeriod zeroTime zeroTime.

(** ** [parseTimePeriod] *)

(** The three errors the function builds: [errors.New] of the format
    message, and the two [fmt.Errorf] wrappers naming the side. *)
Inductive PeriodError : Type :=
  | InvalidFormat
  | InvalidStart (e : ParseError)
  | InvalidEnd (e : ParseError).

Definition errorPrefix (e : PeriodError) : string :=
  match e with
  | InvalidFormat => "invalid time period format"
  | InvalidStart _ => "invalid start time: "
  | InvalidEnd _ => "invalid end time: "
  end.

(** [parseTimePeriod(s)]; [now] is the value its call of [time.Now()]
    returns. Like the Go function it returns the period together with the
    error, the zero period on every error path. *)
Definition parseTimePeriod (s : string) (now : Time)
  : TimePeriod * option PeriodError :=
  let period := zeroPeriod in
  let times := GoStrings.Split s "-" in
  if negb (length times =? 2)%nat then (period, Some InvalidFormat)
  else
    match Parse_15_04 (nth 0 times EmptyString) with
    | Err e => (period, Some (InvalidStart e))
    | Ok start =>
        match Parse_15_04 (nth 1 times EmptyString) with
        | Err e => (period, Some (InvalidEnd e))
        | Ok end_ =>
            let '(year, month, day) := DateOf now in
            let start :=
              Date year month day (Hour start) (Minute start) 0 0 (Location_of start) in
            let end_ :=
              Date year month day (Hour end_) (Minute end_) 0 0 (Location_of end_) in
            (mkTimePeriod start end_, None)
        end
    end.

(** ** The [clients] table and the two SQL statements of [assignLead] *)

(** The columns of a row other than the primary key [id]. *)
Record Row : Type := mkRow {
  name : string;
  working_hours : string;
  priority : Z;
  lead_capacity : Z;
  existing_leads : Z
}.

(** The table: [id INTEGER PRIMARY KEY] makes it a finite map from ids. *)
Abbreviation Table := (gmap Z Row).

(** [ORDER BY priority DESC, existing_leads ASC] on scanned clients. *)
Definition orderBy (a b : Client) : Prop :=
  Priority b < Priority a
  \/ (Priority a = Priority b /\ ExistingLeads a <= ExistingLeads b).

#[global] Instance orderBy_dec (a b : Client) : Decision (orderBy a b).
Proof. unfold orderBy. apply _. Defined.

(** One result row of the SELECT, scanned into a [Client]: the statement
    selects [id, priority, existing_leads, working_hours, lead_capacity],
    so [Name] keeps its zero value. *)
Definition scanClient (kv : Z * Row) : Client :=
  {| ID := kv.1;
     Name := EmptyString;
     WorkingHours := working_hours kv.2;
     Priority := priority kv.2;
     LeadCapacity := lead_capacity kv.2;
     ExistingLeads := existing_leads kv.2 |}.

(** The rows of [SELECT ... FROM clients ORDER BY priority DESC,
    existing_leads ASC]. SQL leaves the order of rows with equal keys open;
    here it is the one a stable sort of the table's own order gives. *)
Definition selectOrdered (db : Table) : list Client :=
  merge_sort orderBy (scanClient <$> map_to_list db).

Definition incrementLeads (r : Row) : Row :=
  {| name := name r;
     working_hours := working_hours r;
     priority := priority r;
     lead_capacity := lead_capacity r;
     existing_leads := existing_leads r + 1 |}.

(** [UPDATE clients SET existing_leads = existing_leads + 1 WHERE id = ?]. *)
Definition updateLeads (id : Z) (db : Table) : Table := alter incrementLeads id db.

(** ** HTTP responses *)

Inductive Body : Type :=
  | Text (msg : string)
  | JSONClientID (client_id : Z).

Record Response : Type := mkResponse { statusCode : Z; body : Body }.

Definition StatusAccepted : Z := 202.
Definition StatusNotFound : Z := 404.
Definition StatusInternalServerError : Z := 500.

(** [http.Error(w, msg, code)]. *)
Definition httpError (msg : string) (code : Z) : Response := mkResponse code (Text msg).

(** ** What one request meets outside the table *)

(** [clock 0] is the reading of [time.Now()] at the top of [assignLead];
    [clock (S i)] the one of the call of [parseTimePeriod] in the [i]-th
    iteration of the loop. The three flags say whether [db.Query], a
    [rows.Scan] or [db.Exec] return an error. *)
Record Env : Type := mkEnv {
  clock : nat -> Time;
  queryFails : bool;
  scanFails : Client -> bool;
  execFails : bool
}.

(** The readings of the clock that the calls of [parseTimePeriod] get. *)
Definition parseClock (env : Env) : nat -> Time := fun i => clock env (S i).

(** ** [assignLead] *)

(** The [rows.Next()] loop: scan every row into the slice [clients], or
    answer 500 at the first row that fails to scan. *)
Fixpoint scanRows (bad : Client -> bool) (rows clients : list Client)
  : result (list Client) Response :=
  match rows with
  | [] => Ok clients
  | client :: rows' =>
      if bad client
      then Err (httpError "Failed to retrieve client data" StatusInternalServerError)
      else scanRows bad rows' (clients ++ [client])
  end.

(** Where the handler stands when its loop over [clients] is left: it has
    answered, or it is about to run the UPDATE for one id. *)
Inductive Pending : Type :=
  | Respond (r : Response)
  | Update (id : Z).

(** The [for _, client := range clients] loop up to the UPDATE; [tick]
    counts the iterations. *)
Fixpoint scanClients (currentTime : Time) (now : nat -> Time) (tick : nat)
    (clients : list Client) : Pending :=
  match clients with
  | [] => Respond (httpError "No suitable client found" StatusNotFound)
  | client :: rest =>
      let '(workingHours, err) := parseTimePeriod (WorkingHours client) (now tick) in
      match err with
      | Some _ =>
          Respond (httpError "Failed to parse working hours" StatusInternalServerError)
      | None =>
          if After currentTime (Start workingHours)
             && Before currentTime (End workingHours)
          then
            if ExistingLeads client <? LeadCapacity client
            then Update (ID client)
            else scanClients currentTime now (S tick) rest
          else scanClients currentTime now (S tick) rest
      end
  end.

(** The handler from its first line to the last statement before
    [db.Exec]: the SELECT, the scan of its rows, the loop. *)
Definition assignLead_select (env : Env) (db : Table) : Pending :=
  let currentTime := clock env 0%nat in
  if queryFails env
  then Respond (httpError "Failed to retrieve clients" StatusInternalServerError)
  else
    match scanRows (scanFails env) (selectOrdered db) [] with
    | Err r => Respond r
    | Ok clients =>
        scanClients currentTime (parseClock env) 0%nat clients
    end.

(** [db.Exec] of the UPDATE and the answer that follows it. *)
Definition assignLead_update (env : Env) (id : Z) (db : Table) : Response * Table :=
  if execFails env
  then (httpError "Failed to update client's lead counter" StatusInternalServerError, db)
  else (mkResponse StatusAccepted (JSONClientID id), updateLeads id db).

(** One request served alone: the answer and the table it leaves. *)
Definition assignLead (env : Env) (db : Table) : Response * Table :=
  match assignLead_select env db with
  | Respond r => (r, db)
  | Update id => assignLead_update env id db
  end.

(** ** Requests served concurrently *)

(** [net/http] runs each request in a goroutine of its own and the handlers
    share the one table. A statement of SQL is atomic, the handler is not:
    between its SELECT and its UPDATE other handlers may run theirs. *)
Inductive Handler : Type :=
  | Arrived (env : Env)
  | Selected (env : Env) (id : Z)
  | Answered (r : Response).

Definition System : Type := (Table * list Handler)%type.

Inductive step : System -> System -> Prop :=
  | step_select db hs i env :
      hs !! i = Some (Arrived env) ->
      step (db, hs)
           (db, <[i := match assignLead_select env db with
                       | Respond r => Answered r
                       | Update id => Selected env id
                       end]> hs)
  | step_update db hs i env id :
      hs !! i = Some (Selected env id) ->
      step (db, hs)
           ((assignLead_update env id db).2,
            <[i := Answered (assignLead_update env id db).1]> hs).

Inductive steps : System -> System -> Prop :=
  | steps_refl s : steps s s
  | steps_step s1 s2 s3 : step s1 s2 -> steps s2 s3 -> steps s1 s3.

(** Requests served one after the other, each to its end. *)
Fixpoint serve (envs : list Env) (db : Table) : list Response * Table :=
  match envs with
  | [] => ([], db)
  | env :: envs' =>
      let '(r, db1) := assignLead env db in
      let '(rs, db2) := serve envs' db1 in
      (r :: rs, db2)
  end.

(** ** Vocabulary of the properties *)

(** The day number [time.Date] computes for a calendar date. *)
Definition dayNumber (year month day : Z) : Z :=
  daysSinceEpoch year + daysBefore (month - 1)
  + (if isLeap year && (3 <=? month) then 1 else 0) + (day - 1).

(** The calendar date [Time.Date] computes for a day number. *)
Definition civilOfDays (D : Z) : Z * Z * Z :=
  DateOf (mkTime (D * secondsPerDay) 0 UTC).

(** Month and day of the month of the day [yday] of a year, as [Time.Date]
    finds them. *)
Definition monthDay (leap : bool) (yday : Z) : Z * Z :=
  if leap && (yday =? 31 + 29 - 1) then (2, 29)
  else
    let day := if leap && (31 + 29 - 1 <? yday) then yday - 1 else yday in
    let month := day / 31 in
    let e := daysBefore (month + 1) in
    if e <=? day then (month + 2, day - e + 1)
    else (month + 1, day - daysBefore month + 1).

(** The test run over the days of a year: the month is a month, and
    [time.Date] counts [yday] days before that day of that month. *)
Definition monthDayRoundTrip (leap : bool) (yday : Z) : bool :=
  let '(m, d) := monthDay leap yday in
  (1 <=? m) && (m <=? 12)
  && (daysBefore (m - 1) + (if leap && (3 <=? m) then 1 else 0) + (d - 1) =? yday).

(** [f] holds of the [n] integers from [start] on. *)
Fixpoint allFrom (f : Z -> bool) (start : Z) (n : nat) : bool :=
  match n with
  | O => true
  | S k => f start && allFrom f (start + 1) k
  end.

(** The instant of a [Time] in nanoseconds, for a well-formed value. *)
Definition instant (t : Time) : Z := wallSec t * 1000000000 + nsec t.
Definition validTime (t : Time) : Prop := 0 <= nsec t < 1000000000.

(** The strings HH:MM and HH:MM-HH:MM, two digits on every side. *)
Definition digitChar (d : Z) : ascii := ascii_of_nat (Z.to_nat (48 + d)).

Definition clockThen (h m : Z) (rest : string) : string :=
  String (digitChar (h / 10)) (String (digitChar (h mod 10)) (String ":"
    (String (digitChar (m / 10)) (String (digitChar (m mod 10)) rest)))).

Definition clockString (h m : Z) : string := clockThen h m EmptyString.

Definition windowString (h1 m1 h2 m2 : Z) : string :=
  clockThen h1 m1 (String "-" (clockString h2 m2)).

Definition validClock (h m : Z) : Prop := 0 <= h < 24 /\ 0 <= m < 60.

(** The causes for which [parseTimePeriod] rejects [s], each with the
    error that names it. *)
Inductive Rejected (s : string) : PeriodError -> Prop :=
  | rejected_format :
      length (GoStrings.Split s "-") <> 2%nat -> Rejected s InvalidFormat
  | rejected_start a b e :
      GoStrings.Split s "-" = [a; b] -> Parse_15_04 a = Err e ->
      Rejected s (InvalidStart e)
  | rejected_end a b t e :
      GoStrings.Split s "-" = [a; b] -> Parse_15_04 a = Ok t ->
      Parse_15_04 b = Err e -> Rejected s (InvalidEnd e).

Definition failsToParse (v : string) : Prop := exists e, Parse_15_04 v = Err e.

(** The condition under which the body of the loop reaches the UPDATE for
    [client], once its window is parsed. It reads its arguments only. *)
Definition eligible (client : Client) (workingHours : TimePeriod)
    (currentTime : Time) : bool :=
  After currentTime (Start workingHours)
  && Before currentTime (End workingHours)
  && (ExistingLeads client <? LeadCapacity client).

(** [client]'s window parses at the reading [now] of the clock. *)
Definition parses (now : Time) (client : Client) : bool :=
  match snd (parseTimePeriod (WorkingHours client) now) with
  | None => true
  | Some _ => false
  end.

(** [client]'s window parses at [now] and [client] is eligible at
    [currentTime] for the period it yields. *)
Definition candidate (currentTime now : Time) (client : Client) : bool :=
  parses now client
  && eligible client (fst (parseTimePeriod (WorkingHours client) now)) currentTime.

(** The three answers of a request that meets no error of the registry. *)
Definition accepted (id : Z) : Response := mkResponse StatusAccepted (JSONClientID id).
Definition configurationError : Response :=
  httpError "Failed to parse working hours" StatusInternalServerError.
Definition noSuitableClient : Response :=
  httpError "No suitable client found" StatusNotFound.

Definition noFaults (env : Env) : Prop :=
  queryFails env = false /\ (forall c, scanFails env c = false) /\ execFails env = false.

(** The eligibility predicate as the specification words it: [now] within
    the period from its start (included) to its end (excluded), and load
    below capacity. *)
Definition isEligibleSpec (client : Client) (period : TimePeriod) (now : Time) : Prop :=
  (instant (Start period) <= instant now < instant (End period))
  /\ ExistingLeads client < LeadCapacity client.

(** The loop passes over every client of [pre]: each window parses and no
    client is eligible; [tick] is the iteration of the first of them. *)
Fixpoint passesOver (currentTime : Time) (now : nat -> Time) (tick : nat)
    (pre : list Client) : bool :=
  match pre with
  | [] => true
  | client :: pre' =>
      parses (now tick) client
      && negb (candidate currentTime (now tick) client)
      && passesOver currentTime now (S tick) pre'
  end.

(** The three ways the loop over the snapshot ends: at the first client
    that is a candidate, at the first whose window does not parse, or at the
    end of the snapshot. *)
Inductive LoopEnd (currentTime : Time) (now : nat -> Time) (tick : nat)
    (clients : list Client) : Pending -> Prop :=
  | loop_update pre c post :
      clients = pre ++ c :: post ->
      passesOver currentTime now tick pre = true ->
      candidate currentTime (now (tick + length pre)%nat) c = true ->
      LoopEnd currentTime now tick clients (Update (ID c))
  | loop_unparsed pre c post :
      clients = pre ++ c :: post ->
      passesOver currentTime now tick pre = true ->
      parses (now (tick + length pre)%nat) c = false ->
      LoopEnd currentTime now tick clients (Respond configurationError)
  | loop_exhausted :
      passesOver currentTime now tick clients = true ->
      LoopEnd currentTime now tick clients (Respond noSuitableClient).

(** ** Sample data *)

(** An environment without registry errors whose clock stands at [t]. *)
Definition quietAt (t : Time) : Env := mkEnv (fun _ => t) false (fun _ => false) false.

(** The three clients of the repository's test, with the ids the table
    gives them. *)
Definition testClients : Table :=
  <[1 := mkRow "Client One" "09:00-17:00" 3 10 10]>
  (<[2 := mkRow "Client Two" "12:00-20:00" 3 5 0]>
  (<[3 := mkRow "Client Three" "16:30-00:30" 2 7 0]> ∅)).

(** A table with one client of capacity 1 and no lead yet. *)
Definition soloRow : Row := mkRow "Solo" "09:00-17:00" 1 1 0.
Definition soloTable : Table := {[ 7 := soloRow ]}.

Definition nineSharp : Time := Date 2024 5 17 9 0 0 0 UTC.
Definition twoPM : Time := Date 2024 5 17 14 0 0 0 UTC.

(** Two requests that arrive together at 14:00 for the table with the one
    free slot, and the states their handlers go through when both run
    their SELECT before either runs its UPDATE. *)
Definition raceStart : System :=
  (soloTable, [Arrived (quietAt twoPM); Arrived (quietAt twoPM)]).
Definition raceBothSelected : System :=
  (soloTable, [Selected (quietAt twoPM) 7; Selected (quietAt twoPM) 7]).
Definition raceFirstUpdated : System :=
  (updateLeads 7 soloTable, [Answered (accepted 7); Selected (quietAt twoPM) 7]).
Definition raceEnd : System :=
  (updateLeads 7 (updateLeads 7 soloTable),
   [Answered (accepted 7); Answered (accepted 7)]).

(** The instant of the request lies in the window of [client]. *)
Definition windowOpen (env : Env) (client : Client) : bool :=
  parses (parseClock env 0) client
  && After (clock env 0%nat)
           (Start (fst (parseTimePeriod (WorkingHours client) (parseClock env 0))))
  && Before (clock env 0%nat)
            (End (fst (parseTimePeriod (WorkingHours client) (parseClock env 0)))).


(** Three requests that come one after the other, each at 14:00. *)
Definition threeCalls : list Env := [quietAt twoPM; quietAt twoPM; quietAt twoPM].

(** ** The database and the other handlers of main.go *)

(** The database file: the [clients] table and the counter SQLite keeps
    for an AUTOINCREMENT key, the largest id the table ever held. *)
Record Database : Type := mkDatabase { clients : Table; sequence : Z }.

(** [setupDatabase]: [CREATE TABLE IF NOT EXISTS] on the file, which has
    the table already or not. *)
Definition setupDatabase (file : option Database) : Database :=
  match file with
  | Some db => db
  | None => mkDatabase ∅ 0
  end.

Definition maxRowid (t : Table) : Z := map_fold (fun k _ acc => Z.max k acc) 0 t.

(** The id an INSERT without id gets: one more than the largest id the
    table holds or ever held. *)
Definition nextRowid (db : Database) : Z :=
  Z.max (sequence db) (maxRowid (clients db)) + 1.

(** The rows as a scan of the table yields them, by ascending id. *)
Definition rowidOrder (a b : Z * Row) : Prop := a.1 <= b.1.

#[global] Instance rowidOrder_dec (a b : Z * Row) : Decision (rowidOrder a b).
Proof. unfold rowidOrder. apply _. Defined.

Definition tableScan (t : Table) : list (Z * Row) :=
  merge_sort rowidOrder (map_to_list t).

(** A row scanned with all its six columns. *)
Definition fullClient (kv : Z * Row) : Client :=
  {| ID := kv.1;
     Name := name kv.2;
     WorkingHours := working_hours kv.2;
     Priority := priority kv.2;
     LeadCapacity := lead_capacity kv.2;
     ExistingLeads := existing_leads kv.2 |}.

Definition rowOfClient (client : Client) : Row :=
  mkRow (Name client) (WorkingHours client) (Priority client)
        (LeadCapacity client) (ExistingLeads client).

Definition StatusOK : Z := 200.
Definition StatusCreated : Z := 201.
Definition StatusBadRequest : Z := 400.
Definition StatusMethodNotAllowed : Z := 405.

(** What a handler writes: the text of [http.Error], or the value it
    gives the JSON encoder. A nil slice is encoded as null, so the slice of
    [retrieveAllClients] keeps the difference between nil and empty. *)
Inductive Payload : Type :=
  | PlainText (msg : string)
  | JSONId (id : Z)
  | JSONAssigned (client_id : Z)
  | JSONClient (c : Client)
  | JSONClients (cs : option (list Client)).

(** A handler answers, or [log.Fatal] ends the process. *)
Inductive Outcome : Type :=
  | Replied (code : Z) (p : Payload)
  | Exited.

(** The error of [row.Scan]. *)
Inductive ScanError : Type :=
  | NoError
  | ErrNoRows
  | OtherError.

Definition isErrNoRows (e : ScanError) : bool :=
  match e with
  | ErrNoRows => true
  | _ => false
  end.

(** [SELECT id FROM clients WHERE name = ?] scanned into [existingID]:
    the first row of that name, [ErrNoRows] without one; on an error the
    variable keeps its zero value. *)
Definition scanIdByName (n : string) (fails : bool) (t : Table) : Z * ScanError :=
  if fails then (0, OtherError)
  else
    match List.find (fun kv => String.eqb (name kv.2) n) (tableScan t) with
    | Some kv => (kv.1, NoError)
    | None => (0, ErrNoRows)
    end.

(** The errors [createNewClient] may meet at the database. *)
Record CreateFaults : Type := mkCreateFaults {
  lookupFails : bool;
  insertFails : bool;
  lastInsertIdFails : bool
}.

(** [createNewClient]; [decoded] is what the JSON decoder makes of the
    body, [None] when it returns an error. *)
Definition createNewClient (method : string) (decoded : option Client)
    (f : CreateFaults) (db : Database) : Outcome * Database :=
  if negb (String.eqb method "POST")
  then (Replied StatusMethodNotAllowed (PlainText "Invalid request method"), db)
  else
    match decoded with
    | None => (Replied StatusBadRequest (PlainText "Bad request"), db)
    | Some client =>
        let '(existingID, err) := scanIdByName (Name client) (lookupFails f) (clients db) in
        if negb (isErrNoRows err)
        then (Replied StatusOK (JSONId existingID), db)
        else if insertFails f then (Exited, db)
        else
          let id := nextRowid db in
          let db' := mkDatabase (<[id := rowOfClient client]> (clients db)) id in
          if lastInsertIdFails f then (Exited, db')
          else (Replied StatusCreated (JSONId id), db')
    end.

(** [append(clients, c)] on a slice that may be nil. *)
Definition appendClient (cs : option (list Client)) (c : Client) : option (list Client) :=
  Some (default [] cs ++ [c]).

(** The errors [retrieveAllClients] may meet at the database. *)
Record ListFaults : Type := mkListFaults {
  listQueryFails : bool;
  listScanFails : Client -> bool;
  rowsErrFails : bool
}.

(** The [rows.Next()] loop of [retrieveAllClients]. *)
Fixpoint scanAllRows (bad : Client -> bool) (rows : list Client)
    (cs : option (list Client)) : result (option (list Client)) Outcome :=
  match rows with
  | [] => Ok cs
  | c :: rows' =>
      if bad c
      then Err (Replied StatusInternalServerError (PlainText "Failed to scan row"))
      else scanAllRows bad rows' (appendClient cs c)
  end.

Definition retrieveAllClients (method : string) (f : ListFaults) (db : Database)
  : Outcome :=
  if negb (String.eqb method "GET")
  then Replied StatusMethodNotAllowed (PlainText "Invalid request method")
  else if listQueryFails f
  then Replied StatusInternalServerError (PlainText "Failed to execute query")
  else
    match scanAllRows (listScanFails f) (fullClient <$> tableScan (clients db)) None with
    | Err o => o
    | Ok cs =>
        if rowsErrFails f
        then Replied StatusInternalServerError (PlainText "Error iterating over rows")
        else Replied StatusOK (JSONClients cs)
    end.

(** [SELECT * FROM clients WHERE id = ?] scanned into a [Client]; the
    parameter is the text of the query string, and [numeric] is the integer
    SQLite reads in a text compared with an integer column, if any. *)
Definition scanClientById (numeric : string -> option Z) (id : string)
    (fails : bool) (t : Table) : Client * ScanError :=
  let zero := mkClient 0 EmptyString EmptyString 0 0 0 in
  if fails then (zero, OtherError)
  else
    match numeric id with
    | None => (zero, ErrNoRows)
    | Some k =>
        match t !! k with
        | Some row => (fullClient (k, row), NoError)
        | None => (zero, ErrNoRows)
        end
    end.

(** [retrieveClient]; [id] is [r.URL.Query().Get] of the parameter, empty
    when the parameter is absent. *)
Definition retrieveClient (numeric : string -> option Z) (method : string)
    (id : string) (fails : bool) (db : Database) : Outcome :=
  if negb (String.eqb method "GET")
  then Replied StatusMethodNotAllowed (PlainText "Invalid request method")
  else if String.eqb id EmptyString
  then Replied StatusBadRequest (PlainText "Client ID is missing")
  else
    let '(c, err) := scanClientById numeric id fails (clients db) in
    match err with
    | NoError => Replied StatusOK (JSONClient c)
    | ErrNoRows => Replied StatusNotFound (PlainText "Client not found")
    | OtherError => Replied StatusInternalServerError (PlainText "Failed to scan client")
    end.

(** The answer of [assignLead] among the outcomes of the other handlers. *)
Definition outcomeOf (r : Response) : Outcome :=
  Replied (statusCode r)
          (match body r with
           | Text msg => PlainText msg
           | JSONClientID id => JSONAssigned id
           end).

(** A request as [startServer] routes it: to [createNewClient],
    [retrieveAllClients], [retrieveClient] or [assignLead], with what the
    handler reads of it and what it meets at the database. *)
Inductive Request : Type :=
  | ClientsNew (method : string) (decoded : option Client) (f : CreateFaults)
  | Clients (method : string) (f : ListFaults)
  | ClientById (method : string) (id : string) (fails : bool)
  | AssignLead (env : Env).

Definition handle (numeric : string -> option Z) (req : Request) (db : Database)
  : Outcome * Database :=
  match req with
  | ClientsNew method decoded f => createNewClient method decoded f db
  | Clients method f => (retrieveAllClients method f db, db)
  | ClientById method id fails => (retrieveClient numeric method id fails db, db)
  | AssignLead env =>
      let '(r, t) := assignLead env (clients db) in
      (outcomeOf r, mkDatabase t (sequence db))
  end.

(** Requests served one after the other, until the process exits. *)
Fixpoint serveAll (numeric : string -> option Z) (reqs : list Request)
    (db : Database) : list Outcome * Database :=
  match reqs with
  | [] => ([], db)
  | req :: reqs' =>
      let '(o, db1) := handle numeric req db in
      match o with
      | Exited => ([Exited], db1)
      | Replied _ _ =>
          let '(os, db2) := serveAll numeric reqs' db1 in
          (o :: os, db2)
      end
  end.

(** ** Vocabulary of the further properties *)

(** No two rows of the table carry the same name. *)
Definition uniqueNames (t : Table) : Prop :=
  forall k1 k2 r1 r2,
    t !! k1 = Some r1 -> t !! k2 = Some r2 -> name r1 = name r2 -> k1 = k2.

(** The ids of the table are 1 to its size, and the counter stands at the
    last of them. *)
Definition consecutiveIds (db : Database) : Prop :=
  sequence db = Z.of_nat (size (clients db))
  /\ forall k, is_Some (clients db !! k) <-> 1 <= k <= sequence db.

(** [db'] keeps every client of [db]: same id, name, hours, priority and
    capacity, and at least as many leads. *)
Definition keepsClients (t t' : Table) : Prop :=
  forall k r,
    t !! k = Some r ->
    exists r',
      t' !! k = Some r'
      /\ name r' = name r /\ working_hours r' = working_hours r
      /\ priority r' = priority r /\ lead_capacity r' = lead_capacity r
      /\ existing_leads r <= existing_leads r'.

(** The free slots of a table, and its leads. *)
Definition freeSlots (t : Table) : Z :=
  map_fold (fun _ r acc => (lead_capacity r - existing_leads r) + acc) 0 t.

Definition withinBounds (t : Table) : Prop :=
  forall id row, t !! id = Some row -> 0 <= existing_leads row <= lead_capacity row.

(** The number of answers 202 among answers. *)
Definition isAccepted (r : Response) : bool := statusCode r =? StatusAccepted.

Definition countAccepted (rs : list Response) : Z :=
  Z.of_nat (length (List.filter isAccepted rs)).

(** Handlers of the concurrent system: the ones answered 202 with [id],
    the ones between their SELECT and their UPDATE for [id], and the ones
    that have run their SELECT. *)
Definition answeredWith (id : Z) (h : Handler) : bool :=
  match h with
  | Answered r =>
      match body r with
      | JSONClientID k => (statusCode r =? StatusAccepted) && (k =? id)
      | Text _ => false
      end
  | _ => false
  end.

Definition pendingFor (id : Z) (h : Handler) : bool :=
  match h with
  | Selected _ k => k =? id
  | _ => false
  end.

Definition hasStarted (h : Handler) : bool :=
  match h with
  | Arrived _ => false
  | _ => true
  end.

Definition countIf (p : Handler -> bool) (hs : list Handler) : Z :=
  Z.of_nat (length (List.filter p hs)).

(** What every state of a run from the table [db0] satisfies: a handler
    between its SELECT and its UPDATE holds the id of a row; the table has
    the rows of [db0], each with its columns but the leads, which are the
    leads of [db0] and one per handler answered 202 with that row; and the
    leads of a row with the updates still to come stay below a bound. *)
Definition RunInvariant (db0 : Table) (s : System) : Prop :=
  (forall i env id, s.2 !! i = Some (Selected env id) -> is_Some (s.1 !! id))
  /\ (forall id, is_Some (s.1 !! id) -> is_Some (db0 !! id))
  /\ (forall id r0,
        db0 !! id = Some r0 ->
        exists r,
          s.1 !! id = Some r
          /\ name r = name r0 /\ working_hours r = working_hours r0
          /\ priority r = priority r0 /\ lead_capacity r = lead_capacity r0
          /\ existing_leads r = existing_leads r0 + countIf (answeredWith id) s.2
          /\ existing_leads r + countIf (pendingFor id) s.2
             <= Z.max (lead_capacity r0) (existing_leads r0)
                + Z.max 0 (countIf hasStarted s.2 - 1)).

(** What a request can do to the database: nothing, one INSERT under a
    fresh id for a name the table does not hold, or the UPDATE of one row. *)
Inductive Effect (db db' : Database) : Prop :=
  | effect_none : db' = db -> Effect db db'
  | effect_insert client :
      db' = mkDatabase (<[nextRowid db := rowOfClient client]> (clients db)) (nextRowid db) ->
      (forall k r, clients db !! k = Some r -> name r <> Name client) ->
      Effect db db'
  | effect_update id :
      db' = mkDatabase (updateLeads id (clients db)) (sequence db) ->
      Effect db db'.

(** A time of day in one or two digits for the hour. *)
Definition shortClockString (h m : Z) : string :=
  String (digitChar h) (String ":"
    (String (digitChar (m / 10)) (String (digitChar (m mod 10)) EmptyString))).

Definition clockForm (v : string) (h m : Z) : Prop :=
  validClock h m /\ (v = clockString h m \/ (h <= 9 /\ v = shortClockString h m)).

(** The period [parseTimePeriod] builds from two times of day. *)
Definition periodOn (now : Time) (h1 m1 h2 m2 : Z) : TimePeriod :=
  let '(year, month, day) := DateOf now in
  mkTimePeriod (Date year month day h1 m1 0 0 UTC) (Date year month day h2 m2 0 0 UTC).

(** Nanoseconds since midnight on the clock of [t]'s location. *)
Definition localClockNanos (t : Time) : Z :=
  (abs t mod secondsPerDay) * 1000000000 + nsec t.

(** ** Further sample data *)

Definition noCreateFaults : CreateFaults := mkCreateFaults false false false.
Definition noListFaults : ListFaults := mkListFaults false (fun _ => false) false.

(** The integer of a text of decimal digits, as far as the samples need
    one. *)
Fixpoint decimalValue (s : string) (acc : Z) : option Z :=
  match s with
  | EmptyString => Some acc
  | String c rest =>
      if isDigitByte c then decimalValue rest (acc * 10 + digitVal c) else None
  end.

Definition sampleNumeric (s : string) : option Z :=
  match s with
  | EmptyString => None
  | _ => decimalValue s 0
  end.

Definition clientOne : Client := mkClient 0 "Client One" "09:00-17:00" 3 10 10.
Definition clientTwo : Client := mkClient 0 "Client Two" "12:00-20:00" 3 5 0.
Definition clientThree : Client := mkClient 0 "Client Three" "16:30-00:30" 2 7 0.

(** The requests of the repository's tests, in their order. *)
Definition testRequests : list Request :=
  [ClientsNew "POST" (Some clientOne) noCreateFaults;
   ClientById "GET" "1" false;
   ClientsNew "POST" (Some clientTwo) noCreateFaults;
   ClientById "GET" "2" false;
   ClientsNew "POST" (Some clientThree) noCreateFaults;
   ClientById "GET" "3" false;
   Clients "GET" noListFaults;
   AssignLead (quietAt twoPM)].

(** ** The time package: clock fields and calendar dates *)

Section TimeFacts.

Lemma Date_in_range year month day hour min l :
  1 <= month <= 12 -> 0 <= hour < 24 -> 0 <= min < 60 ->
  Date year month day hour min 0 0 l
  = mkTime (dayNumber year month day * 86400 + hour * 3600 + min * 60 - zoneOffset l) 0 l.
Proof.
  intros Hm Hh Hmi. unfold Date, norm, dayNumber. cbn beta iota.
  rewrite (Z.div_small (month - 1) 12), (Z.mod_small (month - 1) 12) by lia.
  change (0 / 1000000000) with 0. change (0 mod 1000000000) with 0.
  change (0 + 0) with 0. change (0 / 60) with 0. change (0 mod 60) with 0.
  rewrite !Z.add_0_r.
  rewrite (Z.div_small min 60), (Z.mod_small min 60) by lia.
  rewrite !Z.add_0_r.
  rewrite (Z.div_small hour 24), (Z.mod_small hour 24) by lia.
  rewrite !Z.add_0_r.
  replace (month - 1 + 1) with month by lia.
  unfold secondsPerDay, secondsPerHour, secondsPerMinute.
  f_equal; lia.
Qed.

Lemma clock_fields N hour min :
  0 <= hour < 24 -> 0 <= min < 60 ->
  let a := N * 86400 + hour * 3600 + min * 60 in
  (a mod 86400) / 3600 = hour /\ (a mod 3600) / 60 = min /\ a mod 60 = 0
  /\ a / 86400 = N.
Proof.
  intros Hh Hmi a. subst a.
  repeat split.
  - replace (N * 86400 + hour * 3600 + min * 60)
      with (hour * 3600 + min * 60 + N * 86400) by lia.
    rewrite Z_mod_plus_full, Z.mod_small by lia.
    rewrite Z.add_comm, Z.div_add by lia. rewrite Z.div_small; lia.
  - replace (N * 86400 + hour * 3600 + min * 60)
      with (min * 60 + (N * 24 + hour) * 3600) by lia.
    rewrite Z_mod_plus_full, Z.mod_small by lia.
    rewrite Z.div_mul; lia.
  - replace (N * 86400 + hour * 3600 + min * 60)
      with (0 + (N * 1440 + hour * 60 + min) * 60) by lia.
    rewrite Z_mod_plus_full. reflexivity.
  - replace (N * 86400 + hour * 3600 + min * 60)
      with (hour * 3600 + min * 60 + N * 86400) by lia.
    rewrite Z.div_add by lia. rewrite Z.div_small; lia.
Qed.

Lemma Date_fields year month day hour min :
  1 <= month <= 12 -> 0 <= hour < 24 -> 0 <= min < 60 ->
  let t := Date year month day hour min 0 0 UTC in
  Hour t = hour /\ Minute t = min /\ Second t = 0 /\ Nanosecond t = 0
  /\ Location_of t = UTC
  /\ abs t / secondsPerDay = dayNumber year month day.
Proof.
  intros Hm Hh Hmi t. subst t. rewrite Date_in_range by assumption.
  unfold Hour, Minute, Second, Nanosecond, Location_of, abs. cbn [wallSec nsec loc zoneOffset UTC].
  rewrite Z.sub_0_r, Z.add_0_r.
  change secondsPerDay with 86400. change secondsPerHour with 3600.
  change secondsPerMinute with 60.
  destruct (clock_fields (dayNumber year month day) hour min Hh Hmi) as (H1 & H2 & H3 & H4).
  repeat split; assumption.
Qed.

Lemma DateOf_monthDay t :
  DateOf t
  = (fst (absDate (abs t)),
     fst (monthDay (isLeap (fst (absDate (abs t)))) (snd (absDate (abs t)))),
     snd (monthDay (isLeap (fst (absDate (abs t)))) (snd (absDate (abs t))))).
Proof.
  unfold DateOf, monthDay. destruct (absDate (abs t)) as [y yd].
  cbn [fst snd].
  destruct (isLeap y && (yd =? 31 + 29 - 1)); [reflexivity|].
  cbn zeta.
  destruct (daysBefore _ <=? _); reflexivity.
Qed.

Lemma allFrom_spec f n : forall start r,
  allFrom f start n = true -> start <= r < start + Z.of_nat n -> f r = true.
Proof.
  induction n as [|k IH]; intros start r Hall Hr; [lia|].
  cbn [allFrom] in Hall. apply andb_prop in Hall as [Hhd Htl].
  destruct (Z.eq_dec r start) as [->|Hne]; [assumption|].
  apply (IH (start + 1)); [assumption|lia].
Qed.

Lemma monthDay_days (leap : bool) (yday : Z) :
  0 <= yday < (if leap then 366 else 365) ->
  monthDayRoundTrip leap yday = true.
Proof.
  intros Hy. destruct leap.
  - assert (Hall : allFrom (monthDayRoundTrip true) 0 366 = true)
      by (vm_compute; reflexivity).
    apply (allFrom_spec _ _ 0 yday Hall). lia.
  - assert (Hall : allFrom (monthDayRoundTrip false) 0 365 = true)
      by (vm_compute; reflexivity).
    apply (allFrom_spec _ _ 0 yday Hall). lia.
Qed.

(** The year of day [D] starts [yday] days before [D], and [yday] is a day
    of that year. *)
Lemma absDate_days D :
  let year := fst (absDate (D * secondsPerDay)) in
  let yday := snd (absDate (D * secondsPerDay)) in
  daysSinceEpoch year + yday = D
  /\ 0 <= yday < (if isLeap year then 366 else 365).
Proof.
  unfold absDate. cbn zeta. cbn [fst snd].
  rewrite Z.div_mul by (unfold secondsPerDay, secondsPerHour, secondsPerMinute; lia).
  change daysPer400Years with 146097. change daysPer100Years with 36524.
  change daysPer4Years with 1461.
  rewrite !Z.shiftr_div_pow2 by lia. change (2 ^ 2) with 4.
  set (n400 := D / 146097).
  set (d1 := D - 146097 * n400).
  set (n100 := d1 / 36524).
  set (c := n100 - n100 / 4).
  set (d2 := d1 - 36524 * c).
  set (n4 := d2 / 1461).
  set (d3 := d2 - 1461 * n4).
  set (n1 := d3 / 365).
  set (y1 := n1 - n1 / 4).
  assert (H1 : 0 <= d1 < 146097) by (subst d1 n400; Z.div_mod_to_equations; lia).
  assert (Hc : 0 <= c <= 3 /\ 0 <= d2 /\ (c < 3 -> d2 < 36524) /\ d2 <= 36524).
  { subst d2 c n100. Z.div_mod_to_equations. lia. }
  assert (H4 : 0 <= n4 <= 24 /\ 0 <= d3 <= 1460 /\ (n4 = 24 -> c < 3 -> d3 < 1460)).
  { subst d3 n4. Z.div_mod_to_equations. lia. }
  assert (Hy : 0 <= y1 <= 3 /\ 0 <= d3 - 365 * y1 <= 365
               /\ (d3 - 365 * y1 = 365 -> y1 = 3 /\ d3 = 1460)).
  { subst y1 n1. Z.div_mod_to_equations. lia. }
  assert (Hsum : D = 146097 * n400 + 36524 * c + 1461 * n4 + d3)
    by (subst d3 d2 d1; lia).
  clearbody n400 d1 n100 c d2 n4 d3 n1 y1.
  set (year := 400 * n400 + 100 * c + 4 * n4 + y1 + 1).
  assert (Hepoch : daysSinceEpoch year
                   = 146097 * n400 + 36524 * c + 1461 * n4 + 365 * y1).
  { unfold daysSinceEpoch. cbn zeta. subst year. Z.div_mod_to_equations. lia. }
  assert (Hleap : isLeap year = true <-> y1 = 3 /\ (n4 < 24 \/ c = 3)).
  { unfold isLeap. rewrite andb_true_iff, orb_true_iff, negb_true_iff,
      !Z.eqb_eq, Z.eqb_neq. subst year. Z.div_mod_to_equations. lia. }
  split.
  - rewrite Hepoch. lia.
  - destruct (isLeap year).
    + lia.
    + assert (Hno : ~ (y1 = 3 /\ (n4 < 24 \/ c = 3))) by (rewrite <- Hleap; discriminate).
      lia.
Qed.

Lemma DateOf_civil t : DateOf t = civilOfDays (abs t / secondsPerDay).
Proof.
  unfold civilOfDays, DateOf.
  replace (absDate (abs (mkTime (abs t / secondsPerDay * secondsPerDay) 0 UTC)))
    with (absDate (abs t)); [reflexivity|].
  unfold absDate, abs. cbn [wallSec loc zoneOffset UTC]. cbn zeta.
  rewrite Z.add_0_r.
  rewrite Z.div_mul by (unfold secondsPerDay, secondsPerHour, secondsPerMinute; lia).
  reflexivity.
Qed.

(** The day number of the date of day [D] is [D], and the month of that
    date is a month. *)
Lemma dayNumber_civil D y m d :
  civilOfDays D = (y, m, d) -> 1 <= m <= 12 /\ dayNumber y m d = D.
Proof.
  unfold civilOfDays. rewrite DateOf_monthDay.
  unfold abs. cbn [wallSec loc zoneOffset UTC]. rewrite Z.add_0_r.
  destruct (absDate_days D) as [Hsum Hyday].
  set (year := fst (absDate (D * secondsPerDay))) in *.
  set (yday := snd (absDate (D * secondsPerDay))) in *.
  pose proof (monthDay_days (isLeap year) yday Hyday) as Hmd.
  unfold monthDayRoundTrip in Hmd.
  destruct (monthDay (isLeap year) yday) as [m0 d0]. cbn [fst snd].
  intros Heq. injection Heq as <- <- <-.
  apply andb_prop in Hmd as [Hmd Hnum]. apply andb_prop in Hmd as [Hlo Hhi].
  unfold dayNumber. lia.
Qed.

(** A time built by [time.Date] from the date of [now] and a clock reading
    shows that date and that reading. *)
Lemma Date_anchored now hour min :
  0 <= hour < 24 -> 0 <= min < 60 ->
  let '(year, month, day) := DateOf now in
  let t := Date year month day hour min 0 0 UTC in
  Hour t = hour /\ Minute t = min /\ Second t = 0 /\ Nanosecond t = 0
  /\ Location_of t = UTC /\ DateOf t = DateOf now
  /\ wallSec t = (abs now / secondsPerDay) * 86400 + hour * 3600 + min * 60.
Proof.
  intros Hh Hmi.
  pose proof (DateOf_civil now) as Hnow.
  destruct (DateOf now) as [[year month] day] eqn:Hdate.
  symmetry in Hnow. apply dayNumber_civil in Hnow as [Hmonth Hnum].
  cbn zeta.
  destruct (Date_fields year month day hour min Hmonth Hh Hmi)
    as (H1 & H2 & H3 & H4 & H5 & H6).
  repeat split; try assumption.
  - rewrite DateOf_civil, H6, Hnum, <- DateOf_civil. exact Hdate.
  - rewrite Date_in_range by assumption. cbn [wallSec zoneOffset UTC].
    rewrite Hnum. lia.
Qed.

End TimeFacts.

(** ** The window parser *)

Section Parser.

Lemma digitChar_facts d :
  0 <= d <= 9 ->
  isDigitByte (digitChar d) = true /\ digitVal (digitChar d) = d
  /\ Ascii.eqb (digitChar d) "-" = false /\ Ascii.eqb (digitChar d) ":" = false.
Proof.
  intros Hd.
  assert (Hcases : d = 0 \/ d = 1 \/ d = 2 \/ d = 3 \/ d = 4 \/ d = 5 \/ d = 6
                   \/ d = 7 \/ d = 8 \/ d = 9) by lia.
  repeat (destruct Hcases as [-> | Hcases]; [vm_compute; auto |]).
  subst d. vm_compute. auto.
Qed.

Lemma getnum_two_digits a b rest fixed :
  0 <= a <= 9 -> 0 <= b <= 9 ->
  getnum (String (digitChar a) (String (digitChar b) rest)) fixed
  = Some (a * 10 + b, rest).
Proof.
  intros Ha Hb.
  destruct (digitChar_facts a Ha) as (Da & Va & _).
  destruct (digitChar_facts b Hb) as (Db & Vb & _).
  unfold getnum. rewrite Da, Db, Va, Vb. reflexivity.
Qed.

Lemma two_digits n : 0 <= n < 100 ->
  0 <= n / 10 <= 9 /\ 0 <= n mod 10 <= 9 /\ n / 10 * 10 + n mod 10 = n.
Proof.
  intros Hn. pose proof (Z.div_mod n 10 ltac:(lia)).
  pose proof (Z.mod_pos_bound n 10 ltac:(lia)).
  assert (0 <= n / 10) by (apply Z.div_pos; lia).
  assert (n / 10 < 10) by (apply Z.div_lt_upper_bound; lia).
  lia.
Qed.

Lemma Parse_clockString h m :
  validClock h m -> Parse_15_04 (clockString h m) = Ok (Date 0 1 1 h m 0 0 UTC).
Proof.
  intros [Hh Hm].
  destruct (two_digits h ltac:(lia)) as (Hh1 & Hh2 & Hh3).
  destruct (two_digits m ltac:(lia)) as (Hm1 & Hm2 & Hm3).
  unfold Parse_15_04, clockString, clockThen.
  rewrite getnum_two_digits, Hh3 by assumption.
  replace ((h <? 0) || (24 <=? h)) with false
    by (symmetry; apply orb_false_intro; [apply Z.ltb_ge | apply Z.leb_gt]; lia).
  cbn [skip]. rewrite Ascii.eqb_refl.
  rewrite getnum_two_digits, Hm3 by assumption.
  replace ((m <? 0) || (60 <=? m)) with false
    by (symmetry; apply orb_false_intro; [apply Z.ltb_ge | apply Z.leb_gt]; lia).
  reflexivity.
Qed.

Lemma Split_clockString h m :
  validClock h m -> GoStrings.Split (clockString h m) "-" = [clockString h m].
Proof.
  intros [Hh Hm].
  destruct (two_digits h ltac:(lia)) as (Hh1 & Hh2 & _).
  destruct (two_digits m ltac:(lia)) as (Hm1 & Hm2 & _).
  destruct (digitChar_facts _ Hh1) as (_ & _ & E1 & _).
  destruct (digitChar_facts _ Hh2) as (_ & _ & E2 & _).
  destruct (digitChar_facts _ Hm1) as (_ & _ & E3 & _).
  destruct (digitChar_facts _ Hm2) as (_ & _ & E4 & _).
  unfold clockString, clockThen. cbn [GoStrings.Split].
  rewrite E1, E2, E3, E4. reflexivity.
Qed.

Lemma Split_windowString h1 m1 h2 m2 :
  validClock h1 m1 -> validClock h2 m2 ->
  GoStrings.Split (windowString h1 m1 h2 m2) "-"
  = [clockString h1 m1; clockString h2 m2].
Proof.
  intros [Hh Hm] H2.
  destruct (two_digits h1 ltac:(lia)) as (Hh1 & Hh2 & _).
  destruct (two_digits m1 ltac:(lia)) as (Hm1 & Hm2 & _).
  destruct (digitChar_facts _ Hh1) as (_ & _ & E1 & _).
  destruct (digitChar_facts _ Hh2) as (_ & _ & E2 & _).
  destruct (digitChar_facts _ Hm1) as (_ & _ & E3 & _).
  destruct (digitChar_facts _ Hm2) as (_ & _ & E4 & _).
  unfold windowString, clockThen. cbn [GoStrings.Split].
  rewrite E1, E2, E3, E4, Ascii.eqb_refl, (Split_clockString h2 m2 H2).
  reflexivity.
Qed.

Lemma Parsed_clock h m :
  validClock h m ->
  let t := Date 0 1 1 h m 0 0 UTC in
  Hour t = h /\ Minute t = m /\ Location_of t = UTC.
Proof.
  intros [Hh Hm]. cbn zeta.
  destruct (Date_fields 0 1 1 h m ltac:(lia) Hh Hm) as (H1 & H2 & _ & _ & H5 & _).
  auto.
Qed.

(** The period of a well-formed window: both sides on the date of [now],
    in UTC (the location [time.Parse] gives a time without zone). *)
Lemma parseTimePeriod_windowString h1 m1 h2 m2 now :
  validClock h1 m1 -> validClock h2 m2 ->
  parseTimePeriod (windowString h1 m1 h2 m2) now
  = (let '(year, month, day) := DateOf now in
     mkTimePeriod (Date year month day h1 m1 0 0 UTC)
                  (Date year month day h2 m2 0 0 UTC), None).
Proof.
  intros H1 H2. unfold parseTimePeriod.
  rewrite Split_windowString by assumption.
  cbn [length Nat.eqb negb nth].
  rewrite !Parse_clockString by assumption.
  destruct (Parsed_clock h1 m1 H1) as (-> & -> & ->).
  destruct (Parsed_clock h2 m2 H2) as (-> & -> & ->).
  destruct (DateOf now) as [[year month] day]. reflexivity.
Qed.

End Parser.

Section ParserClaims.

Lemma scanClients_cons currentTime now tick client rest :
  scanClients currentTime now tick (client :: rest)
  = if parses (now tick) client
    then if eligible client (fst (parseTimePeriod (WorkingHours client) (now tick)))
                     currentTime
         then Update (ID client)
         else scanClients currentTime now (S tick) rest
    else Respond configurationError.
Proof.
  cbn [scanClients]. unfold parses, eligible.
  destruct (parseTimePeriod (WorkingHours client) (now tick)) as [p [e|]];
    cbn [fst snd]; [reflexivity|].
  destruct (After currentTime (Start p) && Before currentTime (End p));
    [|reflexivity].
  cbn [andb]. destruct (ExistingLeads client <? LeadCapacity client); reflexivity.
Qed.

(** C6. For every window string HH:MM-HH:MM with valid clock times and the
    start earlier than the end, parseTimePeriod succeeds; the hour and the
    minute of both ends of the period are the ones written, both ends show
    the calendar date of the process-local now, and their seconds and
    nanoseconds are zero. *)
Theorem parseTimePeriod_valid_window h1 m1 h2 m2 now :
  validClock h1 m1 -> validClock h2 m2 -> h1 * 60 + m1 < h2 * 60 + m2 ->
  exists p,
    parseTimePeriod (windowString h1 m1 h2 m2) now = (p, None)
    /\ Hour (Start p) = h1 /\ Minute (Start p) = m1
    /\ Hour (End p) = h2 /\ Minute (End p) = m2
    /\ DateOf (Start p) = DateOf now /\ DateOf (End p) = DateOf now
    /\ Second (Start p) = 0 /\ Nanosecond (Start p) = 0
    /\ Second (End p) = 0 /\ Nanosecond (End p) = 0.
Proof.
  intros H1 H2 _.
  rewrite parseTimePeriod_windowString by assumption.
  pose proof (Date_anchored now h1 m1 (proj1 H1) (proj2 H1)) as A1.
  pose proof (Date_anchored now h2 m2 (proj1 H2) (proj2 H2)) as A2.
  destruct (DateOf now) as [[year month] day].
  cbn zeta in A1, A2.
  destruct A1 as (a1 & a2 & a3 & a4 & _ & a6 & _).
  destruct A2 as (b1 & b2 & b3 & b4 & _ & b6 & _).
  eexists. split; [reflexivity|]. cbn [Start End].
  repeat split; assumption.
Qed.

Lemma parseTimePeriod_valid_window_witness :
  (validClock 15 0 /\ validClock 16 0 /\ 15 * 60 + 0 < 16 * 60 + 0)
  /\ exists p,
       parseTimePeriod (windowString 15 0 16 0)
         (Date 2024 2 29 23 30 0 0 (mkLocation 7200)) = (p, None)
       /\ Hour (Start p) = 15 /\ Minute (Start p) = 0
       /\ Hour (End p) = 16 /\ Minute (End p) = 0
       /\ DateOf (Start p) = DateOf (Date 2024 2 29 23 30 0 0 (mkLocation 7200))
       /\ DateOf (End p) = DateOf (Date 2024 2 29 23 30 0 0 (mkLocation 7200))
       /\ Second (Start p) = 0 /\ Nanosecond (Start p) = 0
       /\ Second (End p) = 0 /\ Nanosecond (End p) = 0.
Proof.
  assert (H1 : validClock 15 0) by (unfold validClock; lia).
  assert (H2 : validClock 16 0) by (unfold validClock; lia).
  assert (H3 : 15 * 60 + 0 < 16 * 60 + 0) by lia.
  split; [auto|].
  exact (parseTimePeriod_valid_window 15 0 16 0 _ H1 H2 H3).
Defined.

(** C7. parseTimePeriod fails whenever the split on the dash does not give
    exactly two parts or one of the two parts fails to parse as a clock
    time: it returns the zero period together with an error, and the error
    names the cause (the format, the start or the end). In particular the
    string non-time-format is answered with the error of the format. *)
Theorem parseTimePeriod_rejects s now :
  (length (GoStrings.Split s "-") <> 2%nat
   \/ exists a b, GoStrings.Split s "-" = [a; b]
                  /\ (failsToParse a \/ failsToParse b)) ->
  (exists e, parseTimePeriod s now = (zeroPeriod, Some e) /\ Rejected s e)
  /\ parseTimePeriod "non-time-format" now = (zeroPeriod, Some InvalidFormat).
Proof.
  intros Hcause. split; [|reflexivity]. unfold parseTimePeriod.
  destruct (decide (length (GoStrings.Split s "-") = 2%nat)) as [Hlen|Hlen].
  - rewrite Hlen. cbn [Nat.eqb negb].
    destruct Hcause as [Hne | (a & b & Hsplit & Hfail)]; [contradiction|].
    rewrite Hsplit. cbn [nth].
    destruct (Parse_15_04 a) as [ta|ea] eqn:Ha.
    + destruct (Parse_15_04 b) as [tb|eb] eqn:Hb.
      * destruct Hfail as [[e He] | [e He]]; congruence.
      * eexists. split; [reflexivity|]. eapply rejected_end; eassumption.
    + eexists. split; [reflexivity|]. eapply rejected_start; eassumption.
  - apply Nat.eqb_neq in Hlen as Hlen'. rewrite Hlen'. cbn [negb].
    eexists. split; [reflexivity|]. apply rejected_format. assumption.
Qed.

Lemma parseTimePeriod_rejects_witness :
  length (GoStrings.Split "non-time-format" "-") <> 2%nat
  /\ exists e,
       parseTimePeriod "non-time-format" twoPM = (zeroPeriod, Some e)
       /\ Rejected "non-time-format" e.
Proof.
  assert (Hparts : length (GoStrings.Split "non-time-format" "-") <> 2%nat)
    by (vm_compute; lia).
  split; [exact Hparts|].
  exact (proj1 (parseTimePeriod_rejects "non-time-format" twoPM (or_introl Hparts))).
Defined.

(** The error of the string of the repository's own test is the one of the
    format: it splits into three parts. *)
Lemma parseTimePeriod_non_time_format now :
  parseTimePeriod "non-time-format" now = (zeroPeriod, Some InvalidFormat).
Proof. reflexivity. Qed.

(** Conversely the function succeeds on every other string. *)
Lemma parseTimePeriod_accepts s now :
  snd (parseTimePeriod s now) = None
  <-> exists a b ta tb, GoStrings.Split s "-" = [a; b]
        /\ Parse_15_04 a = Ok ta /\ Parse_15_04 b = Ok tb.
Proof.
  unfold parseTimePeriod. split.
  - destruct (GoStrings.Split s "-") as [|a [|b [|c l]]]; cbn [length Nat.eqb negb snd];
      try discriminate.
    cbn [nth].
    destruct (Parse_15_04 a) as [ta|ea] eqn:Ha; [|discriminate].
    destruct (Parse_15_04 b) as [tb|eb] eqn:Hb; [|discriminate].
    intros _. exists a, b, ta, tb. auto.
  - intros (a & b & ta & tb & -> & Ha & Hb). cbn [length Nat.eqb negb nth].
    rewrite Ha, Hb. destruct (DateOf now) as [[y m] d]. reflexivity.
Qed.

(** The message of the error tells the cause apart. *)
Lemma errorPrefix_names_cause s e :
  Rejected s e ->
  (errorPrefix e = "invalid time period format"%string
   /\ length (GoStrings.Split s "-") <> 2%nat)
  \/ (errorPrefix e = "invalid start time: "%string
      /\ exists a b, GoStrings.Split s "-" = [a; b] /\ failsToParse a)
  \/ (errorPrefix e = "invalid end time: "%string
      /\ exists a b, GoStrings.Split s "-" = [a; b] /\ failsToParse b).
Proof.
  intros [Hlen|a b pe Hsplit Ha|a b t pe Hsplit Ha Hb].
  - left. auto.
  - right. left. split; [reflexivity|]. exists a, b. split; [assumption|].
    exists pe. assumption.
  - right. right. split; [reflexivity|]. exists a, b. split; [assumption|].
    exists pe. assumption.
Qed.

(** The two cases of the repository's test of the parser. *)
Example test_parse_time_period :
  (exists p, parseTimePeriod "15:00-16:00" twoPM = (p, None)
             /\ Hour (Start p) = 15 /\ Minute (Start p) = 0
             /\ Hour (End p) = 16 /\ Minute (End p) = 0)
  /\ snd (parseTimePeriod "non-time-format" twoPM) <> None.
Proof.
  split; [eexists; split; [vm_compute; reflexivity|]|discriminate].
  vm_compute. repeat split.
Qed.

(** A time of day that [time.Parse] accepts for the layout 15:04 has one or
    two digits for the hour. *)
Example Parse_one_digit_hour :
  Parse_15_04 "9:05" = Ok (Date 0 1 1 9 5 0 0 UTC)
  /\ Parse_15_04 "09:05" = Ok (Date 0 1 1 9 5 0 0 UTC).
Proof. split; reflexivity. Qed.

End ParserClaims.

(** ** The eligibility test of the loop *)

Section Eligibility.

Lemma After_iff t u :
  validTime t -> validTime u -> (After t u = true <-> instant u < instant t).
Proof.
  unfold After, validTime, instant. intros Ht Hu.
  rewrite orb_true_iff, andb_true_iff, !Z.ltb_lt, Z.eqb_eq. lia.
Qed.

Lemma Before_iff t u :
  validTime t -> validTime u -> (Before t u = true <-> instant t < instant u).
Proof.
  unfold Before, validTime, instant. intros Ht Hu.
  rewrite orb_true_iff, andb_true_iff, !Z.ltb_lt, Z.eqb_eq. lia.
Qed.

Lemma window_empty currentTime s e :
  wallSec e < wallSec s -> After currentTime s && Before currentTime e = false.
Proof.
  intros Hlt. apply not_true_is_false. intros H.
  apply andb_true_iff in H as [Ha Hb]. unfold After, Before in *.
  rewrite orb_true_iff, andb_true_iff, !Z.ltb_lt, Z.eqb_eq in Ha, Hb. lia.
Qed.

(** C8. A window whose end clock time is earlier than its start parses
    without normalization: both ends keep their written hour and minute on
    the same calendar date, so the end of the period precedes its start, no
    instant is eligible for it, and the loop passes over a client with such
    a window whatever its load. *)
Theorem parseTimePeriod_end_before_start h1 m1 h2 m2 now :
  validClock h1 m1 -> validClock h2 m2 -> h2 * 60 + m2 < h1 * 60 + m1 ->
  exists p,
    parseTimePeriod (windowString h1 m1 h2 m2) now = (p, None)
    /\ Hour (Start p) = h1 /\ Minute (Start p) = m1
    /\ Hour (End p) = h2 /\ Minute (End p) = m2
    /\ DateOf (Start p) = DateOf now /\ DateOf (End p) = DateOf now
    /\ Before (End p) (Start p) = true
    /\ (forall client currentTime, eligible client p currentTime = false)
    /\ (forall client currentTime clk tick rest,
          WorkingHours client = windowString h1 m1 h2 m2 ->
          clk tick = now ->
          scanClients currentTime clk tick (client :: rest)
          = scanClients currentTime clk (S tick) rest).
Proof.
  intros H1 H2 Hlt.
  pose proof (parseTimePeriod_windowString h1 m1 h2 m2 now H1 H2) as Hparse.
  pose proof (Date_anchored now h1 m1 (proj1 H1) (proj2 H1)) as A1.
  pose proof (Date_anchored now h2 m2 (proj1 H2) (proj2 H2)) as A2.
  destruct (DateOf now) as [[year month] day].
  cbn zeta in A1, A2.
  destruct A1 as (a1 & a2 & _ & _ & _ & a6 & a7).
  destruct A2 as (b1 & b2 & _ & _ & _ & b6 & b7).
  set (p := mkTimePeriod (Date year month day h1 m1 0 0 UTC)
                         (Date year month day h2 m2 0 0 UTC)) in *.
  assert (Hgap : wallSec (End p) < wallSec (Start p))
    by (subst p; cbn [Start End]; lia).
  assert (Hnever : forall client currentTime, eligible client p currentTime = false).
  { intros client currentTime. unfold eligible.
    rewrite (window_empty currentTime _ _ Hgap). reflexivity. }
  exists p. repeat split; try assumption.
  - unfold Before. apply orb_true_iff. left. apply Z.ltb_lt. exact Hgap.
  - intros client currentTime clk tick rest Hw Hclk.
    rewrite scanClients_cons. unfold parses. rewrite Hw, Hclk, Hparse.
    cbn [fst snd]. rewrite Hnever. reflexivity.
Qed.

Lemma parseTimePeriod_end_before_start_witness :
  (validClock 16 30 /\ validClock 0 30 /\ 0 * 60 + 30 < 16 * 60 + 30)
  /\ exists p,
       parseTimePeriod (windowString 16 30 0 30) twoPM = (p, None)
       /\ Hour (Start p) = 16 /\ Minute (Start p) = 30
       /\ Hour (End p) = 0 /\ Minute (End p) = 30
       /\ DateOf (Start p) = DateOf twoPM /\ DateOf (End p) = DateOf twoPM
       /\ Before (End p) (Start p) = true
       /\ (forall client currentTime, eligible client p currentTime = false)
       /\ (forall client currentTime clk tick rest,
             WorkingHours client = windowString 16 30 0 30 ->
             clk tick = twoPM ->
             scanClients currentTime clk tick (client :: rest)
             = scanClients currentTime clk (S tick) rest).
Proof.
  assert (H1 : validClock 16 30) by (unfold validClock; lia).
  assert (H2 : validClock 0 30) by (unfold validClock; lia).
  assert (H3 : 0 * 60 + 30 < 16 * 60 + 30) by lia.
  split; [auto|].
  exact (parseTimePeriod_end_before_start 16 30 0 30 twoPM H1 H2 H3).
Defined.

Example windowString_test_client : windowString 16 30 0 30 = "16:30-00:30"%string.
Proof. reflexivity. Qed.

(** C2, as amended. The condition of the loop holds for a client, a period
    and an instant exactly when the instant lies strictly between the start
    and the end of the period (both excluded) and the load of the client is
    below its capacity. Both parts are required; the condition is a function
    of the client, the period and the instant, and touches no table. *)
Theorem eligible_iff client period now :
  validTime now -> validTime (Start period) -> validTime (End period) ->
  (eligible client period now = true
   <-> (instant (Start period) < instant now < instant (End period))
       /\ ExistingLeads client < LeadCapacity client).
Proof.
  intros Hn Hs He. unfold eligible.
  rewrite !andb_true_iff, (After_iff _ _ Hn Hs), (Before_iff _ _ Hn He), Z.ltb_lt.
  tauto.
Qed.

Lemma eligible_iff_witness :
  let client := mkClient 2 EmptyString "12:00-20:00" 3 5 0 in
  let period := mkTimePeriod (Date 2024 5 17 12 0 0 0 UTC)
                             (Date 2024 5 17 20 0 0 0 UTC) in
  (validTime twoPM /\ validTime (Start period) /\ validTime (End period))
  /\ (eligible client period twoPM = true
      <-> (instant (Start period) < instant twoPM < instant (End period))
          /\ ExistingLeads client < LeadCapacity client).
Proof.
  cbn zeta.
  assert (H1 : validTime twoPM) by (vm_compute; split; congruence).
  assert (H2 : validTime (Date 2024 5 17 12 0 0 0 UTC))
    by (vm_compute; split; congruence).
  assert (H3 : validTime (Date 2024 5 17 20 0 0 0 UTC))
    by (vm_compute; split; congruence).
  split; [auto|].
  exact (eligible_iff (mkClient 2 EmptyString "12:00-20:00" 3 5 0)
           (mkTimePeriod (Date 2024 5 17 12 0 0 0 UTC) (Date 2024 5 17 20 0 0 0 UTC))
           twoPM H1 H2 H3).
Defined.

(** C2, the claim as stated fails at the first instant of the window: the
    specification's predicate holds of the client, its resolved period and
    that instant, the condition of the loop does not, and the handler
    answers that no client is suitable. *)
Lemma eligible_excludes_window_start :
  let client := scanClient (7, soloRow) in
  exists p,
    parseTimePeriod (WorkingHours client) nineSharp = (p, None)
    /\ isEligibleSpec client p nineSharp
    /\ eligible client p nineSharp = false
    /\ assignLead (quietAt nineSharp) soloTable = (noSuitableClient, soloTable).
Proof.
  eexists. split; [vm_compute; reflexivity|].
  split; [|split].
  - unfold isEligibleSpec. vm_compute. repeat split; congruence.
  - vm_compute. reflexivity.
  - vm_compute. reflexivity.
Qed.

End Eligibility.

(** ** The ordered snapshot *)

Section Snapshot.

#[local] Instance orderBy_total : Total orderBy.
Proof. intros a b. unfold orderBy. lia. Qed.

#[local] Instance orderBy_trans : Transitive orderBy.
Proof. intros a b c. unfold orderBy. lia. Qed.

Lemma selectOrdered_perm (db : gmap Z Row) :
  selectOrdered db ≡ₚ scanClient <$> map_to_list db.
Proof. apply merge_sort_Permutation. Qed.


Lemma elem_of_selectOrdered (db : gmap Z Row) c :
  c ∈ selectOrdered db
  <-> exists row, db !! ID c = Some row /\ c = scanClient (ID c, row).
Proof.
  rewrite selectOrdered_perm, list_elem_of_fmap. split.
  - intros ([id row] & -> & Hin). apply elem_of_map_to_list in Hin.
    exists row. cbn. auto.
  - intros (row & Hrow & Hc). exists (ID c, row). split; [assumption|].
    apply elem_of_map_to_list. assumption.
Qed.


Lemma scanRows_spec bad rows : forall acc,
  scanRows bad rows acc
  = if existsb bad rows
    then Err (httpError "Failed to retrieve client data" StatusInternalServerError)
    else Ok (acc ++ rows).
Proof.
  induction rows as [|c rows IH]; intros acc; cbn [scanRows existsb].
  - rewrite app_nil_r. reflexivity.
  - destruct (bad c); cbn [orb]; [reflexivity|].
    rewrite IH, <- app_assoc. reflexivity.
Qed.


End Snapshot.

(** ** The loop over the snapshot *)

Section Loop.

Variable currentTime : Time.
Variable now : nat -> Time.

Lemma candidate_parses t c : candidate currentTime t c = true -> parses t c = true.
Proof. unfold candidate. intros H. apply andb_true_iff in H. tauto. Qed.

Lemma scanClients_step tick client rest :
  scanClients currentTime now tick (client :: rest)
  = if parses (now tick) client
    then if candidate currentTime (now tick) client
         then Update (ID client)
         else scanClients currentTime now (S tick) rest
    else Respond configurationError.
Proof.
  rewrite scanClients_cons. unfold candidate.
  destruct (parses (now tick) client); reflexivity.
Qed.

Lemma scanClients_passesOver pre : forall tick rest,
  passesOver currentTime now tick pre = true ->
  scanClients currentTime now tick (pre ++ rest)
  = scanClients currentTime now (tick + length pre) rest.
Proof.
  induction pre as [|c pre IH]; intros tick rest Hpass.
  - cbn [app length]. rewrite Nat.add_0_r. reflexivity.
  - cbn [passesOver] in Hpass.
    apply andb_true_iff in Hpass as [Hpass Hrest].
    apply andb_true_iff in Hpass as [Hparse Hcand].
    apply negb_true_iff in Hcand.
    cbn [app]. rewrite scanClients_step, Hparse, Hcand, (IH (S tick)) by assumption.
    cbn [length]. f_equal. lia.
Qed.

Lemma scanClients_end clients : forall tick,
  LoopEnd currentTime now tick clients (scanClients currentTime now tick clients).
Proof.
  induction clients as [|c rest IH]; intros tick.
  - apply loop_exhausted. reflexivity.
  - rewrite scanClients_step.
    destruct (parses (now tick) c) eqn:Hparse.
    + destruct (candidate currentTime (now tick) c) eqn:Hcand.
      * apply (loop_update currentTime now tick (c :: rest) [] c rest); [reflexivity|reflexivity|].
        cbn [length]. rewrite Nat.add_0_r. assumption.
      * assert (Hhead : parses (now tick) c
                        && negb (candidate currentTime (now tick) c) = true)
          by (rewrite Hparse, Hcand; reflexivity).
        destruct (IH (S tick)) as [pre c' post Heq Hpass Hc
                                  |pre c' post Heq Hpass Hc|Hpass].
        -- apply (loop_update currentTime now tick (c :: rest) (c :: pre) c' post).
           ++ rewrite Heq. reflexivity.
           ++ cbn [passesOver]. rewrite Hhead, Hpass. reflexivity.
           ++ cbn [length]. replace (tick + S (length pre))%nat
                with (S tick + length pre)%nat by lia. assumption.
        -- apply (loop_unparsed currentTime now tick (c :: rest) (c :: pre) c' post).
           ++ rewrite Heq. reflexivity.
           ++ cbn [passesOver]. rewrite Hhead, Hpass. reflexivity.
           ++ cbn [length]. replace (tick + S (length pre))%nat
                with (S tick + length pre)%nat by lia. assumption.
        -- apply loop_exhausted. cbn [passesOver]. rewrite Hhead, Hpass. reflexivity.
    + apply (loop_unparsed currentTime now tick (c :: rest) [] c rest); [reflexivity|reflexivity|].
      cbn [length]. rewrite Nat.add_0_r. assumption.
Qed.

(** Conversely each of the three situations fixes the answer. *)
Lemma scanClients_update tick pre c post :
  passesOver currentTime now tick pre = true ->
  candidate currentTime (now (tick + length pre)%nat) c = true ->
  scanClients currentTime now tick (pre ++ c :: post) = Update (ID c).
Proof.
  intros Hpass Hc. rewrite scanClients_passesOver, scanClients_step by assumption.
  rewrite (candidate_parses _ _ Hc), Hc. reflexivity.
Qed.




End Loop.

(** ** The handler served alone *)

Section Handler.

Variable env : Env.
Variable db : gmap Z Row.

(** The handler before its UPDATE: an error of the registry, or the end
    of the loop over the ordered snapshot. *)
Lemma assignLead_select_cases :
  (queryFails env = true
   /\ assignLead_select env db
      = Respond (httpError "Failed to retrieve clients" StatusInternalServerError))
  \/ (queryFails env = false
      /\ existsb (scanFails env) (selectOrdered db) = true
      /\ assignLead_select env db
         = Respond (httpError "Failed to retrieve client data" StatusInternalServerError))
  \/ (queryFails env = false
      /\ existsb (scanFails env) (selectOrdered db) = false
      /\ assignLead_select env db
         = scanClients (clock env 0%nat) (parseClock env) 0 (selectOrdered db)).
Proof.
  unfold assignLead_select. rewrite scanRows_spec.
  destruct (queryFails env); [left; auto|right].
  destruct (existsb (scanFails env) (selectOrdered db)); [left; auto|right].
  auto.
Qed.

Lemma assignLead_select_update id :
  assignLead_select env db = Update id
  <-> queryFails env = false
      /\ existsb (scanFails env) (selectOrdered db) = false
      /\ exists pre c post,
           selectOrdered db = pre ++ c :: post
           /\ passesOver (clock env 0%nat) (parseClock env) 0 pre = true
           /\ candidate (clock env 0%nat) (parseClock env (length pre)) c = true
           /\ ID c = id.
Proof.
  split.
  - intros Hsel.
    destruct assignLead_select_cases as [[_ H]|[(_ & _ & H)|(Hq & Hs & H)]];
      try congruence.
    repeat split; try assumption.
    rewrite H in Hsel.
    pose proof (scanClients_end (clock env 0%nat) (parseClock env)
                  (selectOrdered db) 0%nat) as Hend.
    rewrite Hsel in Hend. inversion Hend as [pre c post Heq Hpass Hc Hid| |].
    exists pre, c, post. auto.
  - intros (Hq & Hs & pre & c & post & Heq & Hpass & Hc & <-).
    destruct assignLead_select_cases as [[H _]|[(_ & H & _)|(_ & _ & H)]];
      try congruence.
    rewrite H, Heq. apply scanClients_update; assumption.
Qed.

(** The client the handler is about to update is a row of the table below
    its capacity. *)
Lemma selected_row id :
  assignLead_select env db = Update id ->
  exists row, db !! id = Some row /\ existing_leads row < lead_capacity row.
Proof.
  intros Hsel. apply assignLead_select_update in Hsel
    as (_ & _ & pre & c & post & Heq & _ & Hc & <-).
  assert (Hin : c ∈ selectOrdered db)
    by (rewrite Heq; apply elem_of_app; right; apply list_elem_of_here).
  apply elem_of_selectOrdered in Hin as (row & Hrow & Hscan).
  exists row. split; [assumption|].
  unfold candidate, eligible in Hc. rewrite !andb_true_iff in Hc.
  destruct Hc as (_ & _ & Hlt). apply Z.ltb_lt in Hlt.
  rewrite Hscan in Hlt. exact Hlt.
Qed.

Lemma assignLead_accepted id db' :
  assignLead env db = (accepted id, db')
  <-> assignLead_select env db = Update id /\ execFails env = false
      /\ db' = updateLeads id db.
Proof.
  unfold assignLead, assignLead_update. split.
  - destruct assignLead_select_cases as [[_ H]|[(_ & _ & H)|(_ & _ & H)]].
    + rewrite H. intros Heq. injection Heq as Heq _. discriminate.
    + rewrite H. intros Heq. injection Heq as Heq _. discriminate.
    + rewrite H.
      destruct (scanClients_end (clock env 0%nat) (parseClock env)
                  (selectOrdered db) 0%nat) as [pre c post _ _ _| |].
      * destruct (execFails env); intros Heq; injection Heq as Heq Hdb;
          [discriminate|].
        subst id db'. auto.
      * intros Heq. injection Heq as Heq _. discriminate.
      * intros Heq. injection Heq as Heq _. discriminate.
  - intros (-> & -> & ->). reflexivity.
Qed.

Lemma assignLead_not_accepted r db' :
  assignLead env db = (r, db') -> (forall id, r <> accepted id) -> db' = db.
Proof.
  unfold assignLead, assignLead_update.
  destruct (assignLead_select env db) as [r0|id].
  - intros Heq _. injection Heq as _ <-. reflexivity.
  - destruct (execFails env); intros Heq Hno; injection Heq as <- <-;
      [reflexivity|].
    exfalso. apply (Hno id). reflexivity.
Qed.

End Handler.

Section HandlerClaims.





(** The repository's test of the handler: at 14:00 the lead goes to
    client 2, whose row alone changes. *)
Example test_assign_lead :
  assignLead (quietAt twoPM) testClients
  = (accepted 2,
     <[2 := mkRow "Client Two" "12:00-20:00" 3 5 1]> testClients).
Proof. vm_compute. reflexivity. Qed.

End HandlerClaims.

Section Frame.

(** C9. One call of assignLead writes at most one row. When it answers
    with a client id, the row of that id has its existing_leads raised by
    exactly 1 and its other columns kept, and every other row is the same;
    when it answers anything else the table is the same. *)
Theorem assignLead_writes_one_row env (db : gmap Z Row) r db' :
  assignLead env db = (r, db') ->
  (forall id, r = accepted id ->
     exists row,
       db !! id = Some row
       /\ db' !! id = Some (mkRow (name row) (working_hours row) (priority row)
                                  (lead_capacity row) (existing_leads row + 1))
       /\ forall k, k <> id -> db' !! k = db !! k)
  /\ ((forall id, r <> accepted id) -> db' = db).
Proof.
  intros Hrun. split.
  - intros id ->. apply assignLead_accepted in Hrun as (Hsel & _ & ->).
    destruct (selected_row env db id Hsel) as (row & Hrow & _).
    exists row. split; [assumption|]. unfold updateLeads. split.
    + rewrite lookup_alter_eq, Hrow. reflexivity.
    + intros k Hk. apply lookup_alter_ne. congruence.
  - apply (assignLead_not_accepted env db r db' Hrun).
Qed.

Lemma assignLead_writes_one_row_witness :
  assignLead (quietAt twoPM) testClients = (accepted 2, updateLeads 2 testClients)
  /\ (forall id, accepted 2 = accepted id ->
        exists row,
          testClients !! id = Some row
          /\ updateLeads 2 testClients !! id
             = Some (mkRow (name row) (working_hours row) (priority row)
                           (lead_capacity row) (existing_leads row + 1))
          /\ forall k, k <> id -> updateLeads 2 testClients !! k = testClients !! k).
Proof.
  assert (Hrun : assignLead (quietAt twoPM) testClients
                 = (accepted 2, updateLeads 2 testClients))
    by (vm_compute; reflexivity).
  split; [exact Hrun|].
  exact (proj1 (assignLead_writes_one_row _ _ _ _ Hrun)).
Defined.

(** C10. Served alone, a call of assignLead keeps the bounds of every
    row: if 0 <= existing_leads <= lead_capacity holds of every row before
    the call, it holds of every row after it, whatever the answer. *)
Theorem assignLead_preserves_bounds env (db : gmap Z Row) :
  (forall id row, db !! id = Some row ->
                  0 <= existing_leads row <= lead_capacity row) ->
  forall id row, snd (assignLead env db) !! id = Some row ->
                 0 <= existing_leads row <= lead_capacity row.
Proof.
  intros Hinv id row.
  unfold assignLead, assignLead_update.
  destruct (assignLead_select env db) as [r|sel] eqn:Hsel; cbn [snd];
    [apply Hinv|].
  destruct (execFails env); cbn [snd]; [apply Hinv|].
  destruct (selected_row env db sel Hsel) as (row0 & Hrow0 & Hlt).
  unfold updateLeads. rewrite lookup_alter. case_decide as Hid.
  - subst id. rewrite Hrow0. cbn. intros Heq. injection Heq as <-.
    specialize (Hinv sel row0 Hrow0). cbn. lia.
  - apply Hinv.
Qed.

Lemma assignLead_preserves_bounds_witness :
  (forall id row, testClients !! id = Some row ->
                  0 <= existing_leads row <= lead_capacity row)
  /\ forall id row, snd (assignLead (quietAt twoPM) testClients) !! id = Some row ->
                    0 <= existing_leads row <= lead_capacity row.
Proof.
  assert (Hinv : forall id row, testClients !! id = Some row ->
                                0 <= existing_leads row <= lead_capacity row).
  { intros id row. unfold testClients.
    rewrite !lookup_insert, lookup_empty.
    repeat case_decide; intros Heq; try discriminate;
      injection Heq as <-; cbn; lia. }
  split; [exact Hinv|].
  exact (assignLead_preserves_bounds (quietAt twoPM) testClients Hinv).
Defined.

End Frame.

Section Answers.


End Answers.

Section AnswersExamples.


End AnswersExamples.

(** ** Requests served concurrently and in turn *)

Section Concurrency.

Lemma step_select_to db hs i env id :
  hs !! i = Some (Arrived env) ->
  assignLead_select env db = Update id ->
  step (db, hs) (db, <[i := Selected env id]> hs).
Proof.
  intros Hi Hsel. pose proof (step_select db hs i env Hi) as Hstep.
  rewrite Hsel in Hstep. exact Hstep.
Qed.

Lemma step_select_answer db hs i env r :
  hs !! i = Some (Arrived env) ->
  assignLead_select env db = Respond r ->
  step (db, hs) (db, <[i := Answered r]> hs).
Proof.
  intros Hi Hsel. pose proof (step_select db hs i env Hi) as Hstep.
  rewrite Hsel in Hstep. exact Hstep.
Qed.

Lemma step_update_to db hs i env id r db' :
  hs !! i = Some (Selected env id) ->
  assignLead_update env id db = (r, db') ->
  step (db, hs) (db', <[i := Answered r]> hs).
Proof.
  intros Hi Hup. pose proof (step_update db hs i env id Hi) as Hstep.
  rewrite Hup in Hstep. exact Hstep.
Qed.

(** A request served alone is one schedule of the system: its SELECT
    immediately followed by its UPDATE. *)
Lemma serial_steps db hs i env :
  hs !! i = Some (Arrived env) ->
  steps (db, hs)
        (snd (assignLead env db), <[i := Answered (fst (assignLead env db))]> hs).
Proof.
  intros Hi. unfold assignLead.
  destruct (assignLead_select env db) as [r|id] eqn:Hsel; cbn [fst snd].
  - eapply steps_step; [|apply steps_refl].
    apply (step_select_answer db hs i env r Hi Hsel).
  - destruct (assignLead_update env id db) as [r db'] eqn:Hup. cbn [fst snd].
    eapply steps_step; [apply (step_select_to db hs i env id Hi Hsel)|].
    eapply steps_step; [|apply steps_refl].
    assert (Hlt : (i < length hs)%nat) by (eapply lookup_lt_Some; eassumption).
    pose proof (step_update_to db (<[i := Selected env id]> hs) i env id r db'
                  (list_lookup_insert_eq hs i _ Hlt) Hup) as Hstep.
    rewrite list_insert_insert_eq in Hstep. exact Hstep.
Qed.

Lemma race_selects : assignLead_select (quietAt twoPM) soloTable = Update 7.
Proof. vm_compute. reflexivity. Qed.

Lemma race_reaches_first_update : steps raceStart raceFirstUpdated.
Proof.
  unfold raceStart, raceFirstUpdated.
  apply (steps_step _ (soloTable, [Selected (quietAt twoPM) 7; Arrived (quietAt twoPM)])).
  { apply (step_select_to soloTable [Arrived (quietAt twoPM); Arrived (quietAt twoPM)]
             0%nat (quietAt twoPM) 7); [reflexivity|exact race_selects]. }
  apply (steps_step _ (fst raceBothSelected, snd raceBothSelected)).
  { apply (step_select_to soloTable [Selected (quietAt twoPM) 7; Arrived (quietAt twoPM)]
             1%nat (quietAt twoPM) 7); [reflexivity|exact race_selects]. }
  eapply steps_step; [|apply steps_refl].
  apply (step_update_to soloTable (snd raceBothSelected) 0%nat (quietAt twoPM) 7
           (accepted 7) (updateLeads 7 soloTable)); reflexivity.
Qed.

Lemma race_last_step : step raceFirstUpdated raceEnd.
Proof.
  unfold raceFirstUpdated, raceEnd.
  apply (step_update_to (updateLeads 7 soloTable)
           [Answered (accepted 7); Selected (quietAt twoPM) 7] 1%nat
           (quietAt twoPM) 7 (accepted 7) (updateLeads 7 (updateLeads 7 soloTable)));
    reflexivity.
Qed.

Lemma steps_trans s1 s2 s3 : steps s1 s2 -> steps s2 s3 -> steps s1 s3.
Proof.
  induction 1 as [|a b c Hab Hbc IH]; [auto|].
  intros Hc. eapply steps_step; eauto.
Qed.

(** C1, the claim as stated fails for two concurrent requests against one
    client of capacity 1 without lead: both handlers run their SELECT, both
    find the client below its capacity, both run their UPDATE; both answer
    with the client and existing_leads ends at 2, beyond the capacity. *)
Lemma concurrent_requests_exceed_capacity :
  steps raceStart raceEnd
  /\ fst raceStart !! 7 = Some (mkRow "Solo" "09:00-17:00" 1 1 0)
  /\ fst raceEnd !! 7 = Some (mkRow "Solo" "09:00-17:00" 1 1 2)
  /\ snd raceEnd = [Answered (accepted 7); Answered (accepted 7)].
Proof.
  split; [|repeat split].
  eapply steps_trans; [exact race_reaches_first_update|].
  eapply steps_step; [exact race_last_step|apply steps_refl].
Qed.


End Concurrency.

Section Serial.

Lemma selectOrdered_singleton id row :
  selectOrdered {[id := row]} = [scanClient (id, row)].
Proof. unfold selectOrdered. rewrite map_to_list_singleton. reflexivity. Qed.

Lemma windowOpen_candidate env c :
  windowOpen env c = true ->
  parses (parseClock env 0) c = true
  /\ candidate (clock env 0%nat) (parseClock env 0) c
     = (ExistingLeads c <? LeadCapacity c).
Proof.
  unfold windowOpen, candidate, eligible. intros H.
  apply andb_true_iff in H as [H Hb]. apply andb_true_iff in H as [Hp Ha].
  rewrite Hp, Ha, Hb. auto.
Qed.

(** A request without registry error against a table of one client whose
    window is open. *)
Lemma assignLead_solo env id row :
  noFaults env -> windowOpen env (scanClient (id, row)) = true ->
  assignLead env {[id := row]}
  = if existing_leads row <? lead_capacity row
    then (accepted id, {[id := incrementLeads row]})
    else (noSuitableClient, {[id := row]}).
Proof.
  intros (Hq & Hs & He) Hopen.
  apply windowOpen_candidate in Hopen as [Hparse Hcand].
  unfold assignLead, assignLead_select, assignLead_update.
  rewrite Hq, selectOrdered_singleton. cbn [scanRows app].
  rewrite Hs.
  rewrite scanClients_step, Hparse, Hcand. cbn [ExistingLeads LeadCapacity scanClient snd ID fst].
  destruct (existing_leads row <? lead_capacity row); [|reflexivity].
  rewrite He. unfold updateLeads. rewrite alter_singleton_eq. reflexivity.
Qed.

Lemma serve_full id row envs :
  lead_capacity row <= existing_leads row ->
  Forall (fun env => noFaults env /\ windowOpen env (scanClient (id, row)) = true) envs ->
  serve envs {[id := row]}
  = (replicate (length envs) noSuitableClient, {[id := row]}).
Proof.
  intros Hfull Hall. induction Hall as [|env envs [Hquiet Hopen] _ IH];
    [reflexivity|].
  cbn [serve length replicate].
  rewrite (assignLead_solo env id row Hquiet Hopen).
  replace (existing_leads row <? lead_capacity row) with false
    by (symmetry; apply Z.ltb_ge; assumption).
  rewrite IH. reflexivity.
Qed.

(** C1, as amended. A call of assignLead served alone commits only for a
    row whose existing_leads is below lead_capacity in the table it read,
    and raises it by one: it never passes the capacity. Calls served one
    after the other against one client of capacity 1 without lead, each
    without registry error at an instant of the client's window, give one
    success followed by 404s. The check reads the snapshot of the SELECT
    and the increment is the UPDATE, two operations of the registry. *)
Theorem serial_requests_respect_capacity :
  (forall env (db : gmap Z Row) id db',
     assignLead env db = (accepted id, db') ->
     exists row,
       db !! id = Some row
       /\ existing_leads row < lead_capacity row
       /\ db' !! id = Some (incrementLeads row)
       /\ existing_leads (incrementLeads row) <= lead_capacity (incrementLeads row))
  /\ (forall id row envs,
        lead_capacity row = 1 -> existing_leads row = 0 -> envs <> [] ->
        Forall (fun env => noFaults env
                           /\ windowOpen env (scanClient (id, row)) = true) envs ->
        serve envs {[id := row]}
        = (accepted id :: replicate (length envs - 1) noSuitableClient,
           {[id := incrementLeads row]})).
Proof.
  split.
  - intros env db id db' Hrun.
    apply assignLead_accepted in Hrun as (Hsel & _ & ->).
    destruct (selected_row env db id Hsel) as (row & Hrow & Hlt).
    exists row. repeat split; try assumption.
    + unfold updateLeads. rewrite lookup_alter_eq, Hrow. reflexivity.
    + cbn. lia.
  - intros id row envs Hcap Hload Hne Hall.
    destruct envs as [|env envs]; [congruence|].
    apply Forall_cons in Hall as [[Hquiet Hopen] Hall].
    cbn [serve length Nat.sub]. rewrite Nat.sub_0_r.
    rewrite (assignLead_solo env id row Hquiet Hopen).
    replace (existing_leads row <? lead_capacity row) with true
      by (symmetry; apply Z.ltb_lt; lia).
    rewrite (serve_full id (incrementLeads row) envs); [reflexivity|cbn; lia|].
    exact Hall.
Qed.

Lemma serial_requests_respect_capacity_witness :
  (lead_capacity soloRow = 1 /\ existing_leads soloRow = 0 /\ threeCalls <> []
   /\ Forall (fun env => noFaults env
                         /\ windowOpen env (scanClient (7, soloRow)) = true)
             threeCalls)
  /\ serve threeCalls soloTable
     = ([accepted 7; noSuitableClient; noSuitableClient],
        {[7 := incrementLeads soloRow]}).
Proof.
  assert (H1 : lead_capacity soloRow = 1) by reflexivity.
  assert (H2 : existing_leads soloRow = 0) by reflexivity.
  assert (H3 : threeCalls <> []) by discriminate.
  assert (H4 : Forall (fun env => noFaults env
                                  /\ windowOpen env (scanClient (7, soloRow)) = true)
                      threeCalls) by (repeat constructor).
  split; [auto|].
  exact (proj2 serial_requests_respect_capacity 7 soloRow threeCalls H1 H2 H3 H4).
Defined.

End Serial.

(** ** The table as the other handlers read and extend it *)

Section TableFacts.

#[local] Instance rowidOrder_total : Total rowidOrder.
Proof. intros a b. unfold rowidOrder. lia. Qed.

#[local] Instance rowidOrder_trans : Transitive rowidOrder.
Proof. intros a b c. unfold rowidOrder. lia. Qed.

Lemma tableScan_perm (t : gmap Z Row) : tableScan t ≡ₚ map_to_list t.
Proof. apply merge_sort_Permutation. Qed.

Lemma tableScan_sorted (t : gmap Z Row) : Sorted rowidOrder (tableScan t).
Proof. apply (Sorted_merge_sort rowidOrder). Qed.

Lemma elem_of_tableScan (t : gmap Z Row) k r :
  (k, r) ∈ tableScan t <-> t !! k = Some r.
Proof. rewrite tableScan_perm. apply elem_of_map_to_list. Qed.

Lemma maxRowid_bounds (t : gmap Z Row) :
  0 <= maxRowid t /\ forall k r, t !! k = Some r -> k <= maxRowid t.
Proof.
  unfold maxRowid.
  apply (map_fold_weak_ind
           (fun b (m : gmap Z Row) => 0 <= b /\ forall k r, m !! k = Some r -> k <= b)).
  - split; [lia|]. intros k r Hk. rewrite lookup_empty in Hk. discriminate.
  - intros i x m b Hi [Hb IH]. split; [lia|].
    intros k r Hk. rewrite lookup_insert in Hk. case_decide as Hik.
    + subst. lia.
    + specialize (IH k r Hk). lia.
Qed.

Lemma maxRowid_le (t : gmap Z Row) b :
  0 <= b -> (forall k r, t !! k = Some r -> k <= b) -> maxRowid t <= b.
Proof.
  intros Hb. unfold maxRowid.
  apply (map_fold_weak_ind
           (fun a (m : gmap Z Row) => (forall k r, m !! k = Some r -> k <= b) -> a <= b)).
  - intros _. exact Hb.
  - intros i x m a Hi IH Hall.
    assert (i <= b) by (apply (Hall i x); apply lookup_insert_eq).
    assert (a <= b); [|lia].
    apply IH. intros k r Hk. apply (Hall k r).
    rewrite lookup_insert_ne; [assumption|]. intros ->. congruence.
Qed.

Lemma nextRowid_above db k r :
  clients db !! k = Some r -> k < nextRowid db.
Proof.
  intros Hk. unfold nextRowid.
  destruct (maxRowid_bounds (clients db)) as [_ Hmax].
  specialize (Hmax k r Hk). lia.
Qed.

Lemma nextRowid_fresh db : clients db !! nextRowid db = None.
Proof.
  destruct (clients db !! nextRowid db) as [r|] eqn:Hk; [|reflexivity].
  apply nextRowid_above in Hk. lia.
Qed.

(** The lookup of a name: the id of a row of that name, or no row of
    that name at all. *)
Lemma scanIdByName_found n (t : gmap Z Row) k :
  scanIdByName n false t = (k, NoError) ->
  exists r, t !! k = Some r /\ name r = n.
Proof.
  unfold scanIdByName.
  destruct (find _ (tableScan t)) as [[k0 r0]|] eqn:Hfind; [|discriminate].
  intros Heq. injection Heq as <-.
  apply find_some in Hfind as [Hin Hname].
  apply list_elem_of_In, elem_of_tableScan in Hin.
  apply String.eqb_eq in Hname. exists r0. auto.
Qed.

Lemma scanIdByName_cases n (t : gmap Z Row) :
  (exists k, scanIdByName n false t = (k, NoError))
  \/ (scanIdByName n false t = (0, ErrNoRows)
      /\ forall k r, t !! k = Some r -> name r <> n).
Proof.
  unfold scanIdByName.
  destruct (find _ (tableScan t)) as [[k0 r0]|] eqn:Hfind.
  - left. eauto.
  - right. split; [reflexivity|]. intros k r Hk Hname.
    pose proof (find_none _ _ Hfind (k, r)) as Hno.
    cbn in Hno. rewrite Hname, String.eqb_refl in Hno.
    assert (false = true); [|discriminate]. symmetry. apply Hno.
    apply list_elem_of_In, elem_of_tableScan. assumption.
Qed.

Lemma scanIdByName_only n (t : gmap Z Row) k r :
  t !! k = Some r -> name r = n ->
  (forall k' r', t !! k' = Some r' -> name r' = n -> k' = k) ->
  scanIdByName n false t = (k, NoError).
Proof.
  intros Hk Hname Honly.
  destruct (scanIdByName_cases n t) as [[k' Hfound]|[_ Hnone]].
  - rewrite Hfound. destruct (scanIdByName_found n t k' Hfound) as (r' & Hk' & Hn').
    rewrite (Honly k' r' Hk' Hn'). reflexivity.
  - exfalso. apply (Hnone k r Hk Hname).
Qed.

End TableFacts.

(** ** [createNewClient] *)

Section Create.

(** The four ways [createNewClient] ends once the method is POST and the
    body is decoded. *)
Lemma createNewClient_post client f db :
  createNewClient "POST" (Some client) f db
  = let '(existingID, err) := scanIdByName (Name client) (lookupFails f) (clients db) in
    if negb (isErrNoRows err) then (Replied StatusOK (JSONId existingID), db)
    else if insertFails f then (Exited, db)
    else if lastInsertIdFails f
    then (Exited,
          mkDatabase (<[nextRowid db := rowOfClient client]> (clients db)) (nextRowid db))
    else (Replied StatusCreated (JSONId (nextRowid db)),
          mkDatabase (<[nextRowid db := rowOfClient client]> (clients db)) (nextRowid db)).
Proof. reflexivity. Qed.

Lemma createNewClient_created method decoded f db id db' :
  createNewClient method decoded f db = (Replied StatusCreated (JSONId id), db') ->
  exists client,
    decoded = Some client /\ method = "POST"%string
    /\ id = nextRowid db
    /\ db' = mkDatabase (<[id := rowOfClient client]> (clients db)) id
    /\ forall k r, clients db !! k = Some r -> name r <> Name client.
Proof.
  unfold createNewClient.
  destruct (String.eqb method "POST") eqn:Hm; cbn [negb]; [|discriminate].
  apply String.eqb_eq in Hm.
  destruct decoded as [client|]; [|discriminate].
  unfold scanIdByName.
  destruct (lookupFails f); cbn [isErrNoRows negb]; [discriminate|].
  fold (scanIdByName (Name client) false (clients db)).
  destruct (scanIdByName_cases (Name client) (clients db)) as [[k Hk]|[Hnone Hnames]].
  - rewrite Hk. cbn [isErrNoRows negb]. discriminate.
  - rewrite Hnone. cbn [isErrNoRows negb].
    destruct (insertFails f); [discriminate|].
    destruct (lastInsertIdFails f); [discriminate|].
    intros Heq. injection Heq as <- <-.
    exists client. auto.
Qed.

End Create.

Section CreateProperties.

(** X1. A client that createNewClient creates gets an id above every id
    of the table and above the counter: no row is overwritten, every row
    stays as it is, and the new row holds the posted columns. *)
Theorem createNewClient_fresh_id method decoded f db id db' :
  createNewClient method decoded f db = (Replied StatusCreated (JSONId id), db') ->
  clients db !! id = None
  /\ (forall k r, clients db !! k = Some r -> k < id)
  /\ sequence db < id /\ sequence db' = id
  /\ (forall k r, clients db !! k = Some r -> clients db' !! k = Some r)
  /\ exists client, decoded = Some client
                    /\ clients db' !! id = Some (rowOfClient client).
Proof.
  intros Hrun.
  apply createNewClient_created in Hrun as (client & -> & -> & -> & -> & _).
  cbn [clients sequence].
  split; [apply nextRowid_fresh|].
  split; [apply nextRowid_above|].
  split; [unfold nextRowid; lia|]. split; [reflexivity|]. split.
  - intros k r Hk. rewrite lookup_insert_ne; [assumption|].
    intros <-. rewrite nextRowid_fresh in Hk. discriminate.
  - exists client. split; [reflexivity|]. apply lookup_insert_eq.
Qed.

Lemma createNewClient_fresh_id_witness :
  createNewClient "POST" (Some clientTwo) noCreateFaults
    (mkDatabase {[1 := rowOfClient clientOne]} 1)
  = (Replied StatusCreated (JSONId 2),
     mkDatabase (<[2 := rowOfClient clientTwo]> {[1 := rowOfClient clientOne]}) 2)
  /\ ({[1 := rowOfClient clientOne]} : gmap Z Row) !! 2 = None.
Proof.
  assert (Hrun : createNewClient "POST" (Some clientTwo) noCreateFaults
                   (mkDatabase {[1 := rowOfClient clientOne]} 1)
                 = (Replied StatusCreated (JSONId 2),
                    mkDatabase (<[2 := rowOfClient clientTwo]>
                                  {[1 := rowOfClient clientOne]}) 2))
    by (vm_compute; reflexivity).
  split; [exact Hrun|].
  exact (proj1 (createNewClient_fresh_id _ _ _ _ _ _ Hrun)).
Defined.

(** X2. Once a client is created, a POST of a client of the same name is
    answered 200 with the id of the first, whatever its other fields, and
    leaves the database as it is. *)
Theorem createNewClient_same_name method client f db id db' client' f' :
  createNewClient method (Some client) f db = (Replied StatusCreated (JSONId id), db') ->
  Name client' = Name client -> lookupFails f' = false ->
  createNewClient "POST" (Some client') f' db' = (Replied StatusOK (JSONId id), db').
Proof.
  intros Hrun Hname Hlookup.
  apply createNewClient_created in Hrun as (c & Hc & -> & -> & -> & Hnone).
  injection Hc as <-.
  rewrite createNewClient_post, Hlookup, Hname. cbn [clients].
  rewrite (scanIdByName_only (Name client) _ (nextRowid db) (rowOfClient client)).
  - reflexivity.
  - apply lookup_insert_eq.
  - reflexivity.
  - intros k' r' Hk' Hn'. rewrite lookup_insert in Hk'. case_decide as Hk; [auto|].
    exfalso. apply (Hnone k' r' Hk' Hn').
Qed.

Lemma createNewClient_same_name_witness :
  createNewClient "POST" (Some clientTwo) noCreateFaults
    (mkDatabase {[1 := rowOfClient clientOne]} 1)
  = (Replied StatusCreated (JSONId 2),
     mkDatabase (<[2 := rowOfClient clientTwo]> {[1 := rowOfClient clientOne]}) 2)
  /\ createNewClient "POST" (Some (mkClient 9 "Client Two" "00:00-01:00" 1 1 1))
       noCreateFaults
       (mkDatabase (<[2 := rowOfClient clientTwo]> {[1 := rowOfClient clientOne]}) 2)
     = (Replied StatusOK (JSONId 2),
        mkDatabase (<[2 := rowOfClient clientTwo]> {[1 := rowOfClient clientOne]}) 2).
Proof.
  assert (Hrun : createNewClient "POST" (Some clientTwo) noCreateFaults
                   (mkDatabase {[1 := rowOfClient clientOne]} 1)
                 = (Replied StatusCreated (JSONId 2),
                    mkDatabase (<[2 := rowOfClient clientTwo]>
                                  {[1 := rowOfClient clientOne]}) 2))
    by (vm_compute; reflexivity).
  split; [exact Hrun|].
  exact (createNewClient_same_name _ _ _ _ _ _
           (mkClient 9 "Client Two" "00:00-01:00" 1 1 1) noCreateFaults
           Hrun eq_refl eq_refl).
Defined.

(** X3. A client just created is the one retrieveClient returns for the
    text of its id: the posted name, hours, priority, capacity and leads
    under the id the table gave, not the id of the body. *)
Theorem create_then_retrieve numeric method client f db id db' idText :
  createNewClient method (Some client) f db = (Replied StatusCreated (JSONId id), db') ->
  idText <> EmptyString -> numeric idText = Some id ->
  retrieveClient numeric "GET" idText false db'
  = Replied StatusOK
      (JSONClient (mkClient id (Name client) (WorkingHours client) (Priority client)
                            (LeadCapacity client) (ExistingLeads client))).
Proof.
  intros Hrun Hne Hnum.
  apply createNewClient_created in Hrun as (c & Hc & -> & -> & -> & _).
  injection Hc as <-.
  unfold retrieveClient, scanClientById. cbn [String.eqb Ascii.eqb Bool.eqb negb].
  apply String.eqb_neq in Hne. rewrite Hne, Hnum. cbn [clients].
  rewrite lookup_insert_eq. reflexivity.
Qed.

Lemma create_then_retrieve_witness :
  (createNewClient "POST" (Some clientTwo) noCreateFaults
     (mkDatabase {[1 := rowOfClient clientOne]} 1)
   = (Replied StatusCreated (JSONId 2),
      mkDatabase (<[2 := rowOfClient clientTwo]> {[1 := rowOfClient clientOne]}) 2)
   /\ "2"%string <> EmptyString /\ sampleNumeric "2" = Some 2)
  /\ retrieveClient sampleNumeric "GET" "2" false
       (mkDatabase (<[2 := rowOfClient clientTwo]> {[1 := rowOfClient clientOne]}) 2)
     = Replied StatusOK (JSONClient (mkClient 2 "Client Two" "12:00-20:00" 3 5 0)).
Proof.
  assert (Hrun : createNewClient "POST" (Some clientTwo) noCreateFaults
                   (mkDatabase {[1 := rowOfClient clientOne]} 1)
                 = (Replied StatusCreated (JSONId 2),
                    mkDatabase (<[2 := rowOfClient clientTwo]>
                                  {[1 := rowOfClient clientOne]}) 2))
    by (vm_compute; reflexivity).
  assert (Hne : "2"%string <> EmptyString) by discriminate.
  assert (Hnum : sampleNumeric "2" = Some 2) by reflexivity.
  split; [auto|].
  exact (create_then_retrieve sampleNumeric _ _ _ _ _ _ "2" Hrun Hne Hnum).
Defined.

(** X4. An answer 200 of createNewClient never writes: either it names a
    row of the table that carries the posted name, or the lookup of the
    name failed and the id is 0. *)
Theorem createNewClient_ok_answer method decoded f db p db' :
  createNewClient method decoded f db = (Replied StatusOK p, db') ->
  db' = db
  /\ exists client,
       decoded = Some client
       /\ ((lookupFails f = true /\ p = JSONId 0)
           \/ (lookupFails f = false
               /\ exists id r, p = JSONId id /\ clients db !! id = Some r
                               /\ name r = Name client)).
Proof.
  unfold createNewClient.
  destruct (String.eqb method "POST"); cbn [negb]; [|discriminate].
  destruct decoded as [client|]; [|discriminate].
  destruct (lookupFails f) eqn:Hl.
  - cbn. intros Heq. injection Heq as <- <-. split; [reflexivity|].
    exists client. split; [reflexivity|]. left. auto.
  - destruct (scanIdByName_cases (Name client) (clients db)) as [[k Hk]|[Hnone _]].
    + rewrite Hk. cbn [isErrNoRows negb]. intros Heq. injection Heq as <- <-.
      split; [reflexivity|]. exists client. split; [reflexivity|]. right.
      split; [reflexivity|].
      destruct (scanIdByName_found _ _ _ Hk) as (r & Hr & Hn). eauto.
    + rewrite Hnone. cbn [isErrNoRows negb].
      destruct (insertFails f); [discriminate|].
      destruct (lastInsertIdFails f); discriminate.
Qed.

Lemma createNewClient_ok_answer_witness :
  createNewClient "POST" (Some clientOne) (mkCreateFaults true false false)
    (mkDatabase {[1 := rowOfClient clientOne]} 1)
  = (Replied StatusOK (JSONId 0), mkDatabase {[1 := rowOfClient clientOne]} 1)
  /\ mkDatabase {[1 := rowOfClient clientOne]} 1
     = mkDatabase {[1 := rowOfClient clientOne]} 1.
Proof.
  assert (Hrun : createNewClient "POST" (Some clientOne) (mkCreateFaults true false false)
                   (mkDatabase {[1 := rowOfClient clientOne]} 1)
                 = (Replied StatusOK (JSONId 0),
                    mkDatabase {[1 := rowOfClient clientOne]} 1))
    by reflexivity.
  split; [exact Hrun|].
  exact (proj1 (createNewClient_ok_answer _ _ _ _ _ _ Hrun)).
Defined.

End CreateProperties.

(** ** Every request, and requests in sequence *)

Section Server.

Variable numeric : string -> option Z.

Lemma keepsClients_refl (t : gmap Z Row) : keepsClients t t.
Proof. intros k r Hk. exists r. repeat split; try assumption; lia. Qed.

Lemma keepsClients_trans (t1 t2 t3 : gmap Z Row) :
  keepsClients t1 t2 -> keepsClients t2 t3 -> keepsClients t1 t3.
Proof.
  intros H12 H23 k r Hk.
  destruct (H12 k r Hk) as (r2 & Hk2 & a1 & a2 & a3 & a4 & a5).
  destruct (H23 k r2 Hk2) as (r3 & Hk3 & b1 & b2 & b3 & b4 & b5).
  exists r3. repeat split; try congruence. lia.
Qed.

Lemma keepsClients_updateLeads id (t : gmap Z Row) : keepsClients t (updateLeads id t).
Proof.
  intros k r Hk. unfold updateLeads. rewrite lookup_alter. case_decide as Hid.
  - subst k. rewrite Hk. exists (incrementLeads r). cbn. repeat split; lia.
  - exists r. repeat split; try assumption; lia.
Qed.

Lemma createNewClient_effect method decoded f db o db' :
  createNewClient method decoded f db = (o, db') -> Effect db db'.
Proof.
  unfold createNewClient.
  destruct (String.eqb method "POST"); cbn [negb];
    [|intros Heq; injection Heq as _ <-; apply effect_none; reflexivity].
  destruct decoded as [client|];
    [|intros Heq; injection Heq as _ <-; apply effect_none; reflexivity].
  destruct (lookupFails f) eqn:Hl.
  - cbn. intros Heq; injection Heq as _ <-; apply effect_none; reflexivity.
  - destruct (scanIdByName_cases (Name client) (clients db)) as [[k Hk]|[Hnone Hnames]].
    + rewrite Hk. cbn [isErrNoRows negb].
      intros Heq; injection Heq as _ <-; apply effect_none; reflexivity.
    + rewrite Hnone. cbn [isErrNoRows negb].
      destruct (insertFails f);
        [intros Heq; injection Heq as _ <-; apply effect_none; reflexivity|].
      destruct (lastInsertIdFails f); intros Heq; injection Heq as _ <-;
        apply (effect_insert _ _ client); auto.
Qed.

Lemma assignLead_effect env (t : gmap Z Row) r t' :
  assignLead env t = (r, t') -> t' = t \/ exists id, t' = updateLeads id t.
Proof.
  unfold assignLead, assignLead_update.
  destruct (assignLead_select env t) as [r0|id].
  - intros Heq. injection Heq as _ <-. auto.
  - destruct (execFails env); intros Heq; injection Heq as _ <-; eauto.
Qed.

Lemma handle_effect req db o db' :
  handle numeric req db = (o, db') -> Effect db db'.
Proof.
  destruct req as [method decoded f|method f|method id fails|env]; cbn [handle].
  - apply createNewClient_effect.
  - intros Heq. injection Heq as _ <-. apply effect_none. reflexivity.
  - intros Heq. injection Heq as _ <-. apply effect_none. reflexivity.
  - destruct (assignLead env (clients db)) as [r t] eqn:Hrun.
    intros Heq. injection Heq as _ <-.
    destruct (assignLead_effect env _ _ _ Hrun) as [->|[id ->]].
    + apply effect_none. destruct db. reflexivity.
    + apply (effect_update _ _ id). reflexivity.
Qed.

(** A property that every effect keeps is kept by every sequence of
    requests. *)
Lemma serveAll_invariant (P : Database -> Prop) :
  (forall db db', Effect db db' -> P db -> P db') ->
  forall reqs db, P db -> P (snd (serveAll numeric reqs db)).
Proof.
  intros Hstep reqs. induction reqs as [|req reqs IH]; intros db HP; [exact HP|].
  cbn [serveAll].
  destruct (handle numeric req db) as [o db1] eqn:Hh.
  assert (HP1 : P db1) by (eapply Hstep; [eapply handle_effect; eassumption|exact HP]).
  destruct o as [code p|]; [|exact HP1].
  specialize (IH db1 HP1). destruct (serveAll numeric reqs db1) as [os db2].
  exact IH.
Qed.

Lemma Effect_keeps db db' : Effect db db' -> keepsClients (clients db) (clients db').
Proof.
  intros [->|client -> _|id ->]; cbn [clients].
  - apply keepsClients_refl.
  - intros k r Hk. exists r. rewrite lookup_insert_ne.
    + repeat split; try assumption; lia.
    + intros <-. rewrite nextRowid_fresh in Hk. discriminate.
  - apply keepsClients_updateLeads.
Qed.

(** X5. Whatever requests are served, in whatever number, a client of the
    table stays in it under its id with its name, working hours, priority
    and capacity, and its leads never go down: no handler deletes or edits
    a client. *)
Theorem serveAll_keeps_clients reqs db :
  keepsClients (clients db) (clients (snd (serveAll numeric reqs db))).
Proof.
  apply (serveAll_invariant (fun d => keepsClients (clients db) (clients d))).
  - intros d d' Heff Hd. eapply keepsClients_trans; [exact Hd|].
    apply Effect_keeps. exact Heff.
  - apply keepsClients_refl.
Qed.

Lemma Effect_uniqueNames db db' :
  Effect db db' -> uniqueNames (clients db) -> uniqueNames (clients db').
Proof.
  intros [->|client -> Hnone|id ->] Huniq; cbn [clients]; [exact Huniq| |].
  - intros k1 k2 r1 r2 H1 H2 Hname.
    destruct (decide (nextRowid db = k1)) as [E1|N1];
      destruct (decide (nextRowid db = k2)) as [E2|N2]; [congruence| | |].
    + rewrite <- E1, lookup_insert_eq in H1. injection H1 as <-.
      rewrite lookup_insert_ne in H2 by assumption.
      exfalso. apply (Hnone k2 r2 H2). symmetry. exact Hname.
    + rewrite <- E2, lookup_insert_eq in H2. injection H2 as <-.
      rewrite lookup_insert_ne in H1 by assumption.
      exfalso. apply (Hnone k1 r1 H1). exact Hname.
    + rewrite lookup_insert_ne in H1, H2 by assumption.
      eapply Huniq; eassumption.
  - intros k1 k2 r1 r2 H1 H2 Hname. unfold updateLeads in H1, H2.
    rewrite lookup_alter_Some in H1, H2.
    destruct H1 as [(_ & x1 & Hx1 & ->)|[_ Hx1]];
      destruct H2 as [(_ & x2 & Hx2 & ->)|[_ Hx2]]; cbn in Hname;
      eapply Huniq; eassumption.
Qed.

(** X6. Served one after the other, requests never give two clients the
    same name: createNewClient inserts only a name the table does not hold
    and assignLead leaves names alone. *)
Theorem serveAll_unique_names reqs db :
  uniqueNames (clients db) ->
  uniqueNames (clients (snd (serveAll numeric reqs db))).
Proof.
  apply (serveAll_invariant (fun d => uniqueNames (clients d))).
  intros d d'. apply Effect_uniqueNames.
Qed.

Lemma Effect_consecutiveIds db db' :
  Effect db db' -> consecutiveIds db -> consecutiveIds db'.
Proof.
  intros [->|client -> _|id ->] [Hseq Hkeys]; [split; assumption| |].
  - assert (Hnext : nextRowid db = sequence db + 1).
    { unfold nextRowid.
      assert (maxRowid (clients db) <= sequence db); [|lia].
      apply maxRowid_le; [lia|].
      intros k r Hk. apply (Hkeys k). eauto. }
    split; cbn [clients sequence].
    + rewrite map_size_insert_None by apply nextRowid_fresh. lia.
    + intros k. rewrite lookup_insert_is_Some, Hkeys. lia.
  - split; cbn [clients sequence].
    + unfold updateLeads.
      rewrite <- !size_dom, dom_alter_L, !size_dom. exact Hseq.
    + intros k. unfold updateLeads. rewrite lookup_alter_is_Some. apply Hkeys.
Qed.

(** X7. From a database whose ids are 1 to n with the counter at n, as
    the empty one setupDatabase creates, every sequence of requests leaves
    ids 1 to n' with the counter at n': clients are numbered in the order
    of their creation, without gap. *)
Theorem serveAll_consecutive_ids reqs db :
  consecutiveIds db -> consecutiveIds (snd (serveAll numeric reqs db)).
Proof.
  apply (serveAll_invariant consecutiveIds).
  intros d d'. apply Effect_consecutiveIds.
Qed.

(** X8. Only two answers write: a request answered with a status other
    than 201 and 202 leaves the database exactly as it was. *)
Theorem handle_read_only req db code p db' :
  handle numeric req db = (Replied code p, db') ->
  code <> StatusCreated -> code <> StatusAccepted -> db' = db.
Proof.
  destruct req as [method decoded f|method f|method id fails|env]; cbn [handle].
  - unfold createNewClient.
    destruct (String.eqb method "POST"); cbn [negb];
      [|intros Heq; injection Heq as _ _ <-; reflexivity].
    destruct decoded as [client|];
      [|intros Heq; injection Heq as _ _ <-; reflexivity].
    destruct (scanIdByName _ _ _) as [k err].
    destruct (negb (isErrNoRows err));
      [intros Heq; injection Heq as _ _ <-; reflexivity|].
    destruct (insertFails f); [discriminate|].
    destruct (lastInsertIdFails f); [discriminate|].
    intros Heq. injection Heq as <- _ _. congruence.
  - intros Heq. injection Heq as _ <-. reflexivity.
  - intros Heq. injection Heq as _ <-. reflexivity.
  - destruct (assignLead env (clients db)) as [r t] eqn:Hrun.
    intros Heq Hc Ha. injection Heq as <- _ <-.
    assert (t = clients db).
    { eapply assignLead_not_accepted; [exact Hrun|].
      intros id ->. apply Ha. reflexivity. }
    subst t. destruct db. reflexivity.
Qed.

End Server.

Section ServerWitnesses.

Lemma uniqueNames_empty : uniqueNames (clients (setupDatabase None)).
Proof. intros k1 k2 r1 r2 H1. cbn in H1. rewrite lookup_empty in H1. discriminate. Qed.

Lemma consecutiveIds_empty : consecutiveIds (setupDatabase None).
Proof.
  split; [reflexivity|]. intros k. cbn. rewrite lookup_empty. split.
  - intros [r Hr]. discriminate.
  - lia.
Qed.

Lemma serveAll_unique_names_witness :
  uniqueNames (clients (setupDatabase None))
  /\ uniqueNames
       (clients (snd (serveAll sampleNumeric testRequests (setupDatabase None)))).
Proof.
  split; [exact uniqueNames_empty|].
  exact (serveAll_unique_names sampleNumeric testRequests (setupDatabase None)
           uniqueNames_empty).
Defined.

Lemma serveAll_consecutive_ids_witness :
  consecutiveIds (setupDatabase None)
  /\ consecutiveIds (snd (serveAll sampleNumeric testRequests (setupDatabase None))).
Proof.
  split; [exact consecutiveIds_empty|].
  exact (serveAll_consecutive_ids sampleNumeric testRequests (setupDatabase None)
           consecutiveIds_empty).
Defined.

Lemma handle_read_only_witness :
  (handle sampleNumeric (ClientsNew "GET" (Some clientOne) noCreateFaults)
     (setupDatabase None)
   = (Replied StatusMethodNotAllowed (PlainText "Invalid request method"),
      setupDatabase None)
   /\ StatusMethodNotAllowed <> StatusCreated
   /\ StatusMethodNotAllowed <> StatusAccepted)
  /\ setupDatabase None = setupDatabase None.
Proof.
  assert (Hrun : handle sampleNumeric (ClientsNew "GET" (Some clientOne) noCreateFaults)
                   (setupDatabase None)
                 = (Replied StatusMethodNotAllowed (PlainText "Invalid request method"),
                    setupDatabase None)) by reflexivity.
  assert (H1 : StatusMethodNotAllowed <> StatusCreated) by discriminate.
  assert (H2 : StatusMethodNotAllowed <> StatusAccepted) by discriminate.
  split; [auto|].
  exact (handle_read_only sampleNumeric _ _ _ _ _ Hrun H1 H2).
Defined.

(** The requests of the repository's tests against a new database: three
    clients created with ids 1, 2 and 3 and read back, all three listed,
    and the lead given to client 2. *)
Example test_requests :
  fst (serveAll sampleNumeric testRequests (setupDatabase None))
  = [Replied StatusCreated (JSONId 1);
     Replied StatusOK (JSONClient (mkClient 1 "Client One" "09:00-17:00" 3 10 10));
     Replied StatusCreated (JSONId 2);
     Replied StatusOK (JSONClient (mkClient 2 "Client Two" "12:00-20:00" 3 5 0));
     Replied StatusCreated (JSONId 3);
     Replied StatusOK (JSONClient (mkClient 3 "Client Three" "16:30-00:30" 2 7 0));
     Replied StatusOK
       (JSONClients (Some [mkClient 1 "Client One" "09:00-17:00" 3 10 10;
                           mkClient 2 "Client Two" "12:00-20:00" 3 5 0;
                           mkClient 3 "Client Three" "16:30-00:30" 2 7 0]));
     Replied StatusAccepted (JSONAssigned 2)].
Proof. vm_compute. reflexivity. Qed.

End ServerWitnesses.

(** ** [retrieveAllClients] and [retrieveClient] *)

Section Retrieve.

Lemma scanAllRows_ok bad rows : forall cs,
  (forall c, c ∈ rows -> bad c = false) ->
  scanAllRows bad rows cs
  = Ok (match rows with
        | [] => cs
        | _ :: _ => Some (default [] cs ++ rows)
        end).
Proof.
  induction rows as [|c rows IH]; intros cs Hok; [reflexivity|].
  cbn [scanAllRows]. rewrite (Hok c) by apply list_elem_of_here.
  rewrite IH by (intros c' Hc'; apply Hok, list_elem_of_further, Hc').
  unfold appendClient.
  destruct rows as [|c' rows']; [reflexivity|].
  simpl. rewrite <- app_assoc. reflexivity.
Qed.

(** X9. A GET of all clients that meets no error of the database is
    answered 200 with every row of the table exactly once, all six columns
    as stored, in the order of the ids; the slice is nil, hence null in
    JSON, exactly when the table is empty. *)
Theorem retrieveAllClients_lists_table f db :
  listQueryFails f = false -> (forall c, listScanFails f c = false) ->
  rowsErrFails f = false ->
  exists cs,
    retrieveAllClients "GET" f db = Replied StatusOK (JSONClients cs)
    /\ (cs = None <-> clients db = ∅)
    /\ (forall c, c ∈ default [] cs
                  <-> exists k r, clients db !! k = Some r /\ c = fullClient (k, r))
    /\ NoDup (ID <$> default [] cs)
    /\ Sorted Z.le (ID <$> default [] cs)
    /\ length (default [] cs) = size (clients db).
Proof.
  intros Hq Hs He. unfold retrieveAllClients.
  cbn [String.eqb Ascii.eqb Bool.eqb negb]. rewrite Hq.
  rewrite scanAllRows_ok by (intros; apply Hs). rewrite He.
  set (rows := fullClient <$> tableScan (clients db)).
  assert (Hperm : rows ≡ₚ fullClient <$> map_to_list (clients db))
    by (subst rows; rewrite tableScan_perm; reflexivity).
  assert (Hids : ID <$> rows = fst <$> tableScan (clients db)).
  { subst rows. rewrite <- list_fmap_compose. reflexivity. }
  assert (Hdefault : default [] (match rows with
                                 | [] => None
                                 | _ :: _ => Some (default [] None ++ rows)
                                 end) = rows)
    by (destruct rows; reflexivity).
  eexists. split; [reflexivity|]. rewrite Hdefault.
  split; [|split; [|split; [|split]]].
  - split.
    + intros Hnil. destruct rows eqn:Hrows; [|discriminate].
      apply map_to_list_empty_iff. symmetry in Hperm.
      apply Permutation_nil_r in Hperm.
      apply fmap_nil_inv in Hperm. exact Hperm.
    + intros Hempty. subst rows. rewrite Hempty. reflexivity.
  - intros c. rewrite Hperm, list_elem_of_fmap. split.
    + intros ([k r] & -> & Hin). apply elem_of_map_to_list in Hin. eauto.
    + intros (k & r & Hk & ->). exists (k, r). split; [reflexivity|].
      apply elem_of_map_to_list. exact Hk.
  - rewrite Hids, tableScan_perm. apply NoDup_fst_map_to_list.
  - rewrite Hids.
    apply (Sorted_fmap fst rowidOrder Z.le); [auto|].
    apply tableScan_sorted.
  - rewrite Hperm, length_fmap. apply length_map_to_list.
Qed.

Lemma retrieveAllClients_lists_table_witness :
  (listQueryFails noListFaults = false
   /\ (forall c, listScanFails noListFaults c = false)
   /\ rowsErrFails noListFaults = false)
  /\ exists cs,
       retrieveAllClients "GET" noListFaults (mkDatabase testClients 3)
       = Replied StatusOK (JSONClients cs)
       /\ (cs = None <-> testClients = ∅)
       /\ length (default [] cs) = size testClients.
Proof.
  assert (H1 : listQueryFails noListFaults = false) by reflexivity.
  assert (H2 : forall c, listScanFails noListFaults c = false) by reflexivity.
  assert (H3 : rowsErrFails noListFaults = false) by reflexivity.
  split; [auto|].
  destruct (retrieveAllClients_lists_table noListFaults (mkDatabase testClients 3)
              H1 H2 H3) as (cs & Hrun & Hnil & _ & _ & _ & Hlen).
  exists cs. auto.
Defined.

(** X10. retrieveClient answers 200 only to a GET with a non-empty id
    whose integer is the id of a row, and then with that row; the answer is
    404 exactly when the id is not empty and names no row. *)
Theorem retrieveClient_answers numeric method id db :
  (forall p,
     retrieveClient numeric method id false db = Replied StatusOK p
     <-> method = "GET"%string /\ id <> EmptyString
         /\ exists k r, numeric id = Some k /\ clients db !! k = Some r
                        /\ p = JSONClient (fullClient (k, r)))
  /\ (forall p,
        retrieveClient numeric method id false db = Replied StatusNotFound p
        <-> method = "GET"%string /\ id <> EmptyString
            /\ p = PlainText "Client not found"
            /\ forall k, numeric id = Some k -> clients db !! k = None).
Proof.
  unfold retrieveClient, scanClientById.
  destruct (String.eqb_spec method "GET") as [->|Hm]; cbn [negb].
  - destruct (String.eqb_spec id EmptyString) as [->|Hid].
    + split; intros p; split; try discriminate; intros (_ & H & _); congruence.
    + destruct (numeric id) as [k|] eqn:Hnum.
      * destruct (clients db !! k) as [r|] eqn:Hk.
        -- split; intros p; split.
           ++ intros Heq. injection Heq as <-. repeat split; try assumption. eauto.
           ++ intros (_ & _ & k' & r' & Hk' & Hr' & ->). congruence.
           ++ discriminate.
           ++ intros (_ & _ & _ & Hnone). specialize (Hnone k eq_refl). congruence.
        -- split; intros p; split.
           ++ discriminate.
           ++ intros (_ & _ & k' & r' & Hk' & Hr' & ->). congruence.
           ++ intros Heq. injection Heq as <-. repeat split; try assumption.
              intros k' Hk'. congruence.
           ++ intros (_ & _ & -> & _). reflexivity.
      * split; intros p; split.
        -- discriminate.
        -- intros (_ & _ & k' & r' & Hk' & _). discriminate.
        -- intros Heq. injection Heq as <-. repeat split; try assumption.
           intros k' Hk'. discriminate.
        -- intros (_ & _ & -> & _). reflexivity.
  - split; intros p; split; try discriminate; intros (H & _); congruence.
Qed.

End Retrieve.

(** ** The strings [parseTimePeriod] accepts, and the zone of its periods *)

Section ParserLanguage.

Lemma digit_inv c :
  isDigitByte c = true -> 0 <= digitVal c <= 9 /\ c = digitChar (digitVal c).
Proof.
  unfold isDigitByte, digitVal, digitChar. cbn zeta. intros H.
  apply andb_true_iff in H as [Hlo Hhi].
  apply Nat.leb_le in Hlo. apply Nat.leb_le in Hhi.
  split; [lia|].
  replace (Z.to_nat (48 + (Z.of_nat (nat_of_ascii c) - 48))) with (nat_of_ascii c) by lia.
  symmetry. apply ascii_nat_embedding.
Qed.

Lemma getnum_inv s fixed n rest :
  getnum s fixed = Some (n, rest) ->
  (exists d0 d1, 0 <= d0 <= 9 /\ 0 <= d1 <= 9 /\ n = d0 * 10 + d1
                 /\ s = String (digitChar d0) (String (digitChar d1) rest))
  \/ (fixed = false
      /\ exists d0, 0 <= d0 <= 9 /\ n = d0 /\ s = String (digitChar d0) rest).
Proof.
  unfold getnum. destruct s as [|c0 r0]; [discriminate|].
  destruct (isDigitByte c0) eqn:H0; [|discriminate].
  destruct (digit_inv c0 H0) as [B0 E0].
  destruct r0 as [|c1 r1].
  - destruct fixed; [discriminate|]. intros Heq. injection Heq as <- <-.
    right. split; [reflexivity|]. exists (digitVal c0). rewrite <- E0. auto.
  - destruct (isDigitByte c1) eqn:H1.
    + destruct (digit_inv c1 H1) as [B1 E1]. intros Heq. injection Heq as <- <-.
      left. exists (digitVal c0), (digitVal c1). rewrite <- E0, <- E1. auto.
    + destruct fixed; [discriminate|]. intros Heq. injection Heq as <- <-.
      right. split; [reflexivity|]. exists (digitVal c0). rewrite <- E0. auto.
Qed.

Lemma two_digits_of d0 d1 :
  0 <= d0 <= 9 -> 0 <= d1 <= 9 ->
  (d0 * 10 + d1) / 10 = d0 /\ (d0 * 10 + d1) mod 10 = d1.
Proof.
  intros H0 H1. split.
  - rewrite Z.add_comm, Z.div_add by lia. rewrite Z.div_small; lia.
  - rewrite Z.add_comm, Z_mod_plus_full. apply Z.mod_small. lia.
Qed.

Lemma skip_colon_inv value rest :
  skip value ":" = Some rest -> value = String ":" rest.
Proof.
  destruct value as [|v value']; [discriminate|].
  cbn [skip]. destruct (Ascii.eqb v ":") eqn:Hv; [|discriminate].
  apply Ascii.eqb_eq in Hv. subst v.
  destruct value'; cbn [skip]; intros Heq; injection Heq as <-; reflexivity.
Qed.

Lemma Parse_15_04_inv v t :
  Parse_15_04 v = Ok t ->
  exists h m, clockForm v h m /\ t = Date 0 1 1 h m 0 0 UTC.
Proof.
  unfold Parse_15_04.
  destruct (getnum v false) as [[hour value1]|] eqn:Hh; [|discriminate].
  destruct ((hour <? 0) || (24 <=? hour)) eqn:Hrange; [discriminate|].
  apply orb_false_elim in Hrange as [Hh0 Hh24].
  apply Z.ltb_ge in Hh0. apply Z.leb_gt in Hh24.
  destruct (skip value1 ":") as [value2|] eqn:Hskip; [|discriminate].
  apply skip_colon_inv in Hskip. subst value1.
  destruct (getnum value2 true) as [[min value3]|] eqn:Hm; [|discriminate].
  destruct ((min <? 0) || (60 <=? min)) eqn:Hmrange; [discriminate|].
  apply orb_false_elim in Hmrange as [Hm0 Hm60].
  apply Z.ltb_ge in Hm0. apply Z.leb_gt in Hm60.
  destruct value3; [|discriminate].
  intros Heq. injection Heq as <-.
  apply getnum_inv in Hm as [(d2 & d3 & B2 & B3 & -> & ->)|[Hfixed _]];
    [|discriminate].
  destruct (two_digits_of d2 d3 B2 B3) as [Q2 R2].
  exists hour, (d2 * 10 + d3). split; [|reflexivity].
  split; [unfold validClock; lia|].
  apply getnum_inv in Hh as [(d0 & d1 & B0 & B1 & -> & ->)|(_ & d0 & B0 & -> & ->)].
  - left. destruct (two_digits_of d0 d1 B0 B1) as [Q0 R0].
    unfold clockString, clockThen. rewrite Q0, R0, Q2, R2. reflexivity.
  - right. split; [lia|]. unfold shortClockString. rewrite Q2, R2. reflexivity.
Qed.

Lemma Parse_shortClockString h m :
  validClock h m -> h <= 9 ->
  Parse_15_04 (shortClockString h m) = Ok (Date 0 1 1 h m 0 0 UTC).
Proof.
  intros [Hh Hm] H9.
  destruct (two_digits m ltac:(lia)) as (Hm1 & Hm2 & Hm3).
  destruct (digitChar_facts h ltac:(lia)) as (Dh & Vh & _).
  unfold Parse_15_04, shortClockString.
  assert (Hget : getnum (String (digitChar h) (String ":"
                   (String (digitChar (m / 10))
                      (String (digitChar (m mod 10)) EmptyString)))) false
                 = Some (h, String ":" (String (digitChar (m / 10))
                               (String (digitChar (m mod 10)) EmptyString)))).
  { unfold getnum. rewrite Dh, Vh. reflexivity. }
  rewrite Hget.
  replace ((h <? 0) || (24 <=? h)) with false
    by (symmetry; apply orb_false_intro; [apply Z.ltb_ge | apply Z.leb_gt]; lia).
  cbn [skip]. rewrite Ascii.eqb_refl.
  rewrite getnum_two_digits, Hm3 by assumption.
  replace ((m <? 0) || (60 <=? m)) with false
    by (symmetry; apply orb_false_intro; [apply Z.ltb_ge | apply Z.leb_gt]; lia).
  reflexivity.
Qed.

Lemma Parse_clockForm v h m :
  clockForm v h m -> Parse_15_04 v = Ok (Date 0 1 1 h m 0 0 UTC).
Proof.
  intros [Hvalid [->|[H9 ->]]].
  - apply Parse_clockString. exact Hvalid.
  - apply Parse_shortClockString; assumption.
Qed.

Lemma Split_clockForm v h m : clockForm v h m -> GoStrings.Split v "-" = [v].
Proof.
  intros [Hvalid [->|[H9 ->]]]; [apply Split_clockString; exact Hvalid|].
  destruct Hvalid as [Hh Hm].
  destruct (two_digits m ltac:(lia)) as (Hm1 & Hm2 & _).
  destruct (digitChar_facts h ltac:(lia)) as (_ & _ & E1 & _).
  destruct (digitChar_facts _ Hm1) as (_ & _ & E3 & _).
  destruct (digitChar_facts _ Hm2) as (_ & _ & E4 & _).
  unfold shortClockString. cbn [GoStrings.Split].
  rewrite E1, E3, E4. reflexivity.
Qed.

Lemma Split_nonempty s sep : GoStrings.Split s sep <> [].
Proof.
  destruct s as [|c s]; cbn [GoStrings.Split]; [discriminate|].
  destruct (Ascii.eqb c sep); [discriminate|].
  destruct (GoStrings.Split s sep); discriminate.
Qed.

(** The parts of a string and the separator between them give the string
    back. *)
Lemma Split_append a b sep :
  GoStrings.Split a sep = [a] ->
  GoStrings.Split (String.append a (String sep b)) sep = a :: GoStrings.Split b sep.
Proof.
  induction a as [|c a IH]; intros Ha.
  - change (String.append EmptyString (String sep b)) with (String sep b).
    cbn [GoStrings.Split]. rewrite Ascii.eqb_refl. reflexivity.
  - change (String.append (String c a) (String sep b))
      with (String c (String.append a (String sep b))).
    cbn [GoStrings.Split] in Ha |- *.
    destruct (Ascii.eqb c sep); [discriminate|].
    destruct (GoStrings.Split a sep) as [|part parts] eqn:Hsplit;
      [destruct (Split_nonempty a sep Hsplit)|].
    injection Ha as Hpart Hparts. subst part parts.
    rewrite IH by reflexivity. reflexivity.
Qed.

Lemma Split_two_inv s sep : forall a b,
  GoStrings.Split s sep = [a; b] -> s = String.append a (String sep b).
Proof.
  induction s as [|c s IH]; intros a b Hs; [discriminate|].
  cbn [GoStrings.Split] in Hs.
  destruct (Ascii.eqb_spec c sep) as [->|Hc].
  - injection Hs as <- Hb.
    change (String.append EmptyString (String sep b)) with (String sep b).
    f_equal. clear IH.
    revert b Hb. induction s as [|c' s IH']; intros b Hb.
    + injection Hb as <-. reflexivity.
    + cbn [GoStrings.Split] in Hb.
      destruct (Ascii.eqb c' sep);
        [injection Hb as _ Hnil; destruct (Split_nonempty s sep Hnil)|].
      destruct (GoStrings.Split s sep) as [|part parts] eqn:Hsplit;
        [destruct (Split_nonempty s sep Hsplit)|].
      injection Hb as <- ->. f_equal. apply IH'. reflexivity.
  - destruct (GoStrings.Split s sep) as [|part parts] eqn:Hsplit;
      [destruct (Split_nonempty s sep Hsplit)|].
    injection Hs as <- ->.
    change (String.append (String c part) (String sep b))
      with (String c (String.append part (String sep b))).
    f_equal. apply IH. reflexivity.
Qed.

(** X11. parseTimePeriod succeeds on exactly the strings made of two times
    of day around one dash, each an hour of one or two digits up to 23, a
    colon and a minute of two digits up to 59; the period then runs
    between these two times of the calendar date of now, in UTC. *)
Theorem parseTimePeriod_accepts_exactly s now p :
  parseTimePeriod s now = (p, None)
  <-> exists a b h1 m1 h2 m2,
        s = String.append a (String "-" b)
        /\ clockForm a h1 m1 /\ clockForm b h2 m2
        /\ p = periodOn now h1 m1 h2 m2.
Proof.
  split.
  - intros Hparse.
    assert (Hok : snd (parseTimePeriod s now) = None) by (rewrite Hparse; reflexivity).
    apply parseTimePeriod_accepts in Hok as (a & b & ta & tb & Hsplit & Ha & Hb).
    apply Parse_15_04_inv in Ha as (h1 & m1 & Hfa & ->).
    apply Parse_15_04_inv in Hb as (h2 & m2 & Hfb & ->).
    exists a, b, h1, m1, h2, m2.
    split; [apply Split_two_inv; exact Hsplit|]. split; [exact Hfa|].
    split; [exact Hfb|].
    unfold parseTimePeriod in Hparse. rewrite Hsplit in Hparse.
    cbn [length Nat.eqb negb nth] in Hparse.
    rewrite (Parse_clockForm a h1 m1 Hfa), (Parse_clockForm b h2 m2 Hfb) in Hparse.
    destruct (Parsed_clock h1 m1 (proj1 Hfa)) as (E1 & E2 & E3).
    destruct (Parsed_clock h2 m2 (proj1 Hfb)) as (E4 & E5 & E6).
    rewrite E1, E2, E3, E4, E5, E6 in Hparse.
    unfold periodOn. destruct (DateOf now) as [[year month] day].
    injection Hparse as <-. reflexivity.
  - intros (a & b & h1 & m1 & h2 & m2 & -> & Hfa & Hfb & ->).
    unfold parseTimePeriod.
    rewrite (Split_append a b "-" (Split_clockForm a h1 m1 Hfa)),
      (Split_clockForm b h2 m2 Hfb).
    cbn [length Nat.eqb negb nth].
    rewrite (Parse_clockForm a h1 m1 Hfa), (Parse_clockForm b h2 m2 Hfb).
    destruct (Parsed_clock h1 m1 (proj1 Hfa)) as (-> & -> & ->).
    destruct (Parsed_clock h2 m2 (proj1 Hfb)) as (-> & -> & ->).
    unfold periodOn. destruct (DateOf now) as [[year month] day]. reflexivity.
Qed.

Lemma parseTimePeriod_accepts_exactly_witness :
  parseTimePeriod "9:00-17:30" twoPM = (periodOn twoPM 9 0 17 30, None)
  /\ exists a b h1 m1 h2 m2,
       "9:00-17:30"%string = String.append a (String "-" b)
       /\ clockForm a h1 m1 /\ clockForm b h2 m2
       /\ periodOn twoPM 9 0 17 30 = periodOn twoPM h1 m1 h2 m2.
Proof.
  assert (Hrun : parseTimePeriod "9:00-17:30" twoPM = (periodOn twoPM 9 0 17 30, None))
    by (vm_compute; reflexivity).
  split; [exact Hrun|].
  exact (proj1 (parseTimePeriod_accepts_exactly _ _ _) Hrun).
Defined.

Lemma same_date_same_day t u :
  DateOf t = DateOf u -> abs t / secondsPerDay = abs u / secondsPerDay.
Proof.
  intros Heq. pose proof (DateOf_civil t) as Ht. pose proof (DateOf_civil u) as Hu.
  rewrite Heq in Ht.
  destruct (DateOf u) as [[y m] d].
  symmetry in Ht, Hu.
  apply dayNumber_civil in Ht as [_ Ht]. apply dayNumber_civil in Hu as [_ Hu].
  congruence.
Qed.

(** X12. The window is read in UTC on the local date: with the parse on
    the calendar date of the request, the instant of the request lies in
    the window exactly when its local time of day less the offset of its
    zone lies strictly between the two written times. *)
Theorem window_is_read_in_UTC h1 m1 h2 m2 now currentTime :
  validClock h1 m1 -> validClock h2 m2 -> validTime currentTime ->
  DateOf now = DateOf currentTime ->
  let p := fst (parseTimePeriod (windowString h1 m1 h2 m2) now) in
  After currentTime (Start p) && Before currentTime (End p) = true
  <-> (h1 * 3600 + m1 * 60) * 1000000000
      < localClockNanos currentTime - zoneOffset (loc currentTime) * 1000000000
      < (h2 * 3600 + m2 * 60) * 1000000000.
Proof.
  intros H1 H2 Hvalid Hdate. cbn zeta.
  rewrite parseTimePeriod_windowString by assumption.
  pose proof (Date_anchored now h1 m1 (proj1 H1) (proj2 H1)) as A1.
  pose proof (Date_anchored now h2 m2 (proj1 H2) (proj2 H2)) as A2.
  pose proof (same_date_same_day now currentTime Hdate) as Hday.
  destruct (DateOf now) as [[year month] day].
  cbn zeta in A1, A2. cbn [fst Start End].
  destruct A1 as (_ & _ & _ & a4 & _ & _ & a7).
  destruct A2 as (_ & _ & _ & b4 & _ & _ & b7).
  unfold Nanosecond in a4, b4.
  rewrite andb_true_iff.
  rewrite After_iff, Before_iff
    by (try assumption; unfold validTime; rewrite ?a4, ?b4; lia).
  unfold instant, localClockNanos. rewrite a4, a7, b4, b7, Hday.
  unfold abs in *. change secondsPerDay with 86400 in *.
  pose proof (Z.div_mod (wallSec currentTime + zoneOffset (loc currentTime)) 86400
                ltac:(lia)) as Hsplit.
  unfold validTime in Hvalid. lia.
Qed.

Lemma window_is_read_in_UTC_witness :
  let request := Date 2024 5 17 13 0 0 0 (mkLocation 7200) in
  (validClock 12 0 /\ validClock 20 0 /\ validTime request
   /\ DateOf request = DateOf request)
  /\ (After request (Start (fst (parseTimePeriod (windowString 12 0 20 0) request)))
      && Before request (End (fst (parseTimePeriod (windowString 12 0 20 0) request)))
      = true
      <-> (12 * 3600 + 0 * 60) * 1000000000
          < localClockNanos request - zoneOffset (loc request) * 1000000000
          < (20 * 3600 + 0 * 60) * 1000000000).
Proof.
  cbn zeta.
  assert (H1 : validClock 12 0) by (unfold validClock; lia).
  assert (H2 : validClock 20 0) by (unfold validClock; lia).
  assert (H3 : validTime (Date 2024 5 17 13 0 0 0 (mkLocation 7200)))
    by (vm_compute; split; congruence).
  split; [auto|].
  exact (window_is_read_in_UTC 12 0 20 0 _ _ H1 H2 H3 eq_refl).
Defined.

(** At 13:00 in a zone two hours east of UTC a window from 12:00 to 20:00
    is not open yet. *)
Example window_two_hours_east :
  let request := Date 2024 5 17 13 0 0 0 (mkLocation 7200) in
  Hour request = 13
  /\ candidate request request (mkClient 2 EmptyString "12:00-20:00" 3 5 0) = false.
Proof. vm_compute. split; reflexivity. Qed.

End ParserLanguage.

(** ** Leads and free slots *)

Section Accounting.

Lemma freeSlots_insert (t : gmap Z Row) k r :
  t !! k = None ->
  freeSlots (<[k := r]> t) = (lead_capacity r - existing_leads r) + freeSlots t.
Proof.
  intros Hk. unfold freeSlots.
  apply (map_fold_insert_L (fun _ r acc => (lead_capacity r - existing_leads r) + acc));
    [|exact Hk].
  intros. lia.
Qed.

Lemma freeSlots_updateLeads (t : gmap Z Row) id r :
  t !! id = Some r -> freeSlots (updateLeads id t) = freeSlots t - 1.
Proof.
  intros Hid. unfold updateLeads.
  rewrite <- (insert_delete_id t id r Hid) at 1.
  rewrite alter_insert_eq.
  rewrite <- (insert_delete_id t id r Hid) at 2.
  rewrite !freeSlots_insert by apply lookup_delete_eq.
  cbn. lia.
Qed.

Lemma freeSlots_nonneg (t : gmap Z Row) : withinBounds t -> 0 <= freeSlots t.
Proof.
  unfold freeSlots.
  apply (map_fold_weak_ind
           (fun b (m : gmap Z Row) => withinBounds m -> 0 <= b)).
  - intros _. lia.
  - intros i x m b Hi IH Hb.
    assert (0 <= existing_leads x <= lead_capacity x)
      by (apply (Hb i x); apply lookup_insert_eq).
    assert (0 <= b); [|lia].
    apply IH. intros k r Hk. apply (Hb k r).
    rewrite lookup_insert_ne; [assumption|]. intros ->. congruence.
Qed.

(** An answer of the handler served alone: no 202 and no write, or 202 for
    a row below its capacity and the UPDATE of that row. *)
Lemma assignLead_cases env (t : gmap Z Row) r t' :
  assignLead env t = (r, t') ->
  (isAccepted r = false /\ t' = t)
  \/ (exists id row,
        r = accepted id /\ t !! id = Some row
        /\ existing_leads row < lead_capacity row /\ t' = updateLeads id t).
Proof.
  unfold assignLead, assignLead_update.
  destruct (assignLead_select env t) as [r0|id] eqn:Hsel.
  - intros Heq. injection Heq as <- <-. left. split; [|reflexivity].
    destruct (assignLead_select_cases env t) as [[_ H]|[(_ & _ & H)|(_ & _ & H)]];
      rewrite H in Hsel; try (injection Hsel as <-; reflexivity).
    pose proof (scanClients_end (clock env 0%nat) (parseClock env)
                  (selectOrdered t) 0%nat) as Hend.
    rewrite Hsel in Hend. inversion Hend; reflexivity.
  - destruct (selected_row env t id Hsel) as (row & Hrow & Hlt).
    destruct (execFails env); intros Heq; injection Heq as <- <-.
    + left. split; reflexivity.
    + right. exists id, row. auto.
Qed.

Lemma withinBounds_updateLeads (t : gmap Z Row) id row :
  withinBounds t -> t !! id = Some row ->
  existing_leads row < lead_capacity row ->
  withinBounds (updateLeads id t).
Proof.
  intros Hb Hid Hlt k r. unfold updateLeads. rewrite lookup_alter.
  case_decide as Hk.
  - subst k. rewrite Hid. cbn. intros Heq. injection Heq as <-.
    specialize (Hb id row Hid). cbn. lia.
  - apply Hb.
Qed.

(** X13. Over calls served one after the other on a table within its
    bounds, the answers 202 count exactly the slots that were taken: their
    number is the fall of the free slots of the table, so it never passes
    the free capacity the calls started with, and the table stays within
    its bounds. *)
Theorem serve_counts_slots envs : forall (db : gmap Z Row) rs db',
  withinBounds db ->
  serve envs db = (rs, db') ->
  countAccepted rs = freeSlots db - freeSlots db'
  /\ countAccepted rs <= freeSlots db
  /\ withinBounds db'.
Proof.
  induction envs as [|env envs IH]; intros db rs db' Hb Hrun.
  - cbn in Hrun. injection Hrun as <- <-. unfold countAccepted. cbn.
    pose proof (freeSlots_nonneg db Hb). split; [lia|]. split; [lia|]. exact Hb.
  - cbn [serve] in Hrun.
    destruct (assignLead env db) as [r db1] eqn:Hone.
    destruct (serve envs db1) as [rs1 db2] eqn:Hrest.
    injection Hrun as <- <-.
    apply assignLead_cases in Hone
      as [[Hno ->]|(id & row & -> & Hrow & Hlt & ->)].
    + destruct (IH db rs1 db2 Hb Hrest) as (Hcount & Hle & Hb2).
      unfold countAccepted in *. cbn [List.filter]. rewrite Hno.
      split; [assumption|]. split; assumption.
    + pose proof (withinBounds_updateLeads db id row Hb Hrow Hlt) as Hb1.
      destruct (IH _ rs1 db2 Hb1 Hrest) as (Hcount & Hle & Hb2).
      rewrite (freeSlots_updateLeads db id row Hrow) in Hcount, Hle.
      unfold countAccepted in *. cbn [List.filter].
      change (isAccepted (accepted id)) with true. cbn [length].
      split; [lia|]. split; [lia|]. assumption.
Qed.

Lemma withinBounds_testClients : withinBounds testClients.
Proof.
  intros id row. unfold testClients.
  rewrite !lookup_insert, lookup_empty.
  repeat case_decide; intros Heq; try discriminate;
    injection Heq as <-; cbn; lia.
Qed.

Lemma serve_counts_slots_witness :
  (withinBounds testClients
   /\ serve threeCalls testClients
      = ([accepted 2; accepted 2; accepted 2],
         updateLeads 2 (updateLeads 2 (updateLeads 2 testClients))))
  /\ countAccepted [accepted 2; accepted 2; accepted 2]
     = freeSlots testClients
       - freeSlots (updateLeads 2 (updateLeads 2 (updateLeads 2 testClients))).
Proof.
  assert (Hrun : serve threeCalls testClients
                 = ([accepted 2; accepted 2; accepted 2],
                    updateLeads 2 (updateLeads 2 (updateLeads 2 testClients))))
    by (vm_compute; reflexivity).
  split; [split; [exact withinBounds_testClients|exact Hrun]|].
  exact (proj1 (serve_counts_slots threeCalls testClients _ _
                  withinBounds_testClients Hrun)).
Defined.

End Accounting.

(** ** Every interleaving of the handlers *)

Section Interleavings.

Lemma countIf_cons p h hs : countIf p (h :: hs) = Z.b2z (p h) + countIf p hs.
Proof.
  unfold countIf. cbn [List.filter]. destruct (p h); cbn [length Z.b2z]; lia.
Qed.

Lemma countIf_bounds p hs : 0 <= countIf p hs <= Z.of_nat (length hs).
Proof.
  induction hs as [|h hs IH]; [unfold countIf; cbn; lia|].
  rewrite countIf_cons. cbn [length]. destruct (p h); cbn [Z.b2z]; lia.
Qed.

Lemma countIf_insert p hs : forall i h h',
  hs !! i = Some h ->
  countIf p (<[i := h']> hs) = countIf p hs - Z.b2z (p h) + Z.b2z (p h').
Proof.
  induction hs as [|h0 hs IH]; intros i h h' Hi; [discriminate|].
  destruct i as [|i].
  - change (<[0%nat := h']> (h0 :: hs)) with (h' :: hs).
    cbn in Hi. injection Hi as <-. rewrite !countIf_cons. lia.
  - change (<[S i := h']> (h0 :: hs)) with (h0 :: <[i := h']> hs).
    change ((h0 :: hs) !! S i) with (hs !! i) in Hi.
    rewrite !countIf_cons, (IH i h h' Hi). lia.
Qed.

Lemma countIf_le p q hs :
  (forall h, p h = true -> q h = true) -> countIf p hs <= countIf q hs.
Proof.
  intros Hpq. induction hs as [|h hs IH]; [unfold countIf; cbn; lia|].
  rewrite !countIf_cons. specialize (Hpq h).
  destruct (p h), (q h); cbn [Z.b2z];
    try lia; try (specialize (Hpq eq_refl); discriminate).
Qed.

Lemma countIf_none p hs :
  Forall (fun h => p h = false) hs -> countIf p hs = 0.
Proof.
  induction 1 as [|h hs Hh _ IH]; [reflexivity|].
  rewrite countIf_cons, Hh, IH. reflexivity.
Qed.

Lemma pending_has_started id h : pendingFor id h = true -> hasStarted h = true.
Proof. destruct h; cbn; congruence. Qed.

(** Before its UPDATE a handler answers with a text only. *)
Lemma assignLead_select_respond env (db : gmap Z Row) r id :
  assignLead_select env db = Respond r -> answeredWith id (Answered r) = false.
Proof.
  intros Hsel.
  destruct (assignLead_select_cases env db) as [[_ H]|[(_ & _ & H)|(_ & _ & H)]];
    rewrite H in Hsel; try (injection Hsel as <-; reflexivity).
  pose proof (scanClients_end (clock env 0%nat) (parseClock env)
                (selectOrdered db) 0%nat) as Hend.
  rewrite Hsel in Hend. inversion Hend; reflexivity.
Qed.

Lemma RunInvariant_start (db0 : gmap Z Row) hs :
  Forall (fun h => hasStarted h = false) hs -> RunInvariant db0 (db0, hs).
Proof.
  intros Hall.
  assert (Hpend : forall id, countIf (pendingFor id) hs = 0).
  { intros id. apply countIf_none. eapply Forall_impl; [exact Hall|].
    intros h Hh. destruct h; cbn in *; congruence. }
  assert (Hans : forall id, countIf (answeredWith id) hs = 0).
  { intros id. apply countIf_none. eapply Forall_impl; [exact Hall|].
    intros h Hh. destruct h; cbn in *; congruence. }
  split; [|split]; cbn [fst snd].
  - intros i env id Hi. rewrite Forall_lookup in Hall.
    specialize (Hall i _ Hi). discriminate.
  - auto.
  - intros id r0 Hr0. exists r0. rewrite Hpend, Hans.
    pose proof (countIf_bounds hasStarted hs).
    repeat split; try assumption; lia.
Qed.

Lemma RunInvariant_step (db0 : gmap Z Row) s s' :
  RunInvariant db0 s -> step s s' -> RunInvariant db0 s'.
Proof.
  intros (Hsel & Hdom & Hrows) Hstep.
  destruct Hstep as [db hs i env Hi|db hs i env id Hi]; cbn [fst snd] in *.
  - (* the SELECT of handler [i] *)
    set (h' := match assignLead_select env db with
               | Respond r => Answered r
               | Update id => Selected env id
               end).
    assert (Hstarted : countIf hasStarted (<[i := h']> hs)
                       = countIf hasStarted hs + 1).
    { rewrite (countIf_insert _ _ _ _ _ Hi). cbn [hasStarted Z.b2z].
      subst h'. destruct (assignLead_select env db); cbn; lia. }
    assert (Hanswered : forall id, countIf (answeredWith id) (<[i := h']> hs)
                                   = countIf (answeredWith id) hs).
    { intros id. rewrite (countIf_insert _ _ _ _ _ Hi). cbn [answeredWith Z.b2z].
      subst h'. destruct (assignLead_select env db) as [r|k] eqn:Hs.
      - rewrite (assignLead_select_respond env db r id Hs). cbn. lia.
      - cbn. lia. }
    unfold RunInvariant. cbn [fst snd]. split; [|split].
    + intros j env' id' Hj. apply list_lookup_insert_Some in Hj
        as [(<- & Hh & _)|[_ Hj]]; [|eapply Hsel; eassumption].
      subst h'. destruct (assignLead_select env db) as [r|k] eqn:Hs; [discriminate|].
      injection Hh as <- <-.
      destruct (selected_row env db k Hs) as (row & Hrow & _). eauto.
    + exact Hdom.
    + intros id r0 Hr0.
      destruct (Hrows id r0 Hr0) as (r & Hr & a1 & a2 & a3 & a4 & a5 & a6).
      exists r. rewrite Hanswered, Hstarted.
      repeat split; try assumption.
      rewrite (countIf_insert _ _ _ _ _ Hi). cbn [pendingFor Z.b2z].
      pose proof (countIf_bounds hasStarted hs) as Hb.
      pose proof (countIf_le (pendingFor id) hasStarted hs (pending_has_started id))
        as Hle.
      subst h'. destruct (assignLead_select env db) as [r1|k] eqn:Hs;
        cbn [pendingFor Z.b2z]; [lia|].
      destruct (Z.eqb_spec k id) as [->|Hk]; cbn [Z.b2z]; [|lia].
      destruct (selected_row env db id Hs) as (row & Hrow & Hlt).
      rewrite Hr in Hrow. injection Hrow as <-. lia.
  - (* the UPDATE of handler [i] *)
    destruct (Hsel i env id Hi) as [row Hrow].
    destruct (Hdom id ltac:(eauto)) as [row0 Hrow0].
    assert (Hstarted : forall h', hasStarted h' = true ->
              countIf hasStarted (<[i := h']> hs) = countIf hasStarted hs).
    { intros h' Hh'. rewrite (countIf_insert _ _ _ _ _ Hi), Hh'. cbn. lia. }
    unfold RunInvariant, assignLead_update.
    destruct (execFails env); cbn [fst snd].
    + split; [|split].
      * intros j env' id' Hj. apply list_lookup_insert_Some in Hj
          as [(_ & Hh & _)|[_ Hj]]; [discriminate|eapply Hsel; eassumption].
      * exact Hdom.
      * intros k r0 Hr0.
        destruct (Hrows k r0 Hr0) as (r & Hr & a1 & a2 & a3 & a4 & a5 & a6).
        exists r. rewrite Hstarted by reflexivity.
        rewrite !(countIf_insert _ _ _ _ _ Hi). cbn [answeredWith pendingFor Z.b2z].
        cbn. repeat split; try assumption; try lia.
        destruct (id =? k); cbn [Z.b2z]; lia.
    + split; [|split].
      * intros j env' id' Hj. apply list_lookup_insert_Some in Hj
          as [(_ & Hh & _)|[_ Hj]]; [discriminate|].
        unfold updateLeads. apply lookup_alter_is_Some. eapply Hsel; eassumption.
      * intros k Hk. unfold updateLeads in Hk. apply lookup_alter_is_Some in Hk.
        auto.
      * intros k r0 Hr0.
        destruct (Hrows k r0 Hr0) as (r & Hr & a1 & a2 & a3 & a4 & a5 & a6).
        rewrite Hstarted by reflexivity.
        rewrite !(countIf_insert _ _ _ _ _ Hi).
        cbn [answeredWith pendingFor Z.b2z body statusCode].
        change (StatusAccepted =? StatusAccepted) with true. cbn [andb].
        unfold updateLeads. rewrite lookup_alter.
        destruct (Z.eqb_spec id k) as [->|Hk]; cbn [Z.b2z].
        -- rewrite decide_True by reflexivity. rewrite Hr.
           exists (incrementLeads r). cbn. repeat split; try assumption; lia.
        -- rewrite decide_False by assumption.
           exists r. repeat split; try assumption; lia.
Qed.

Lemma RunInvariant_steps (db0 : gmap Z Row) s s' :
  steps s s' -> RunInvariant db0 s -> RunInvariant db0 s'.
Proof.
  induction 1 as [|s1 s2 s3 Hstep _ IH]; [auto|].
  intros Hinv. apply IH. eapply RunInvariant_step; eassumption.
Qed.

Lemma step_length s s' : step s s' -> length s'.2 = length s.2.
Proof. intros [db hs i env Hi|db hs i env id Hi]; cbn; apply length_insert. Qed.

Lemma steps_length s s' : steps s s' -> length s'.2 = length s.2.
Proof.
  induction 1 as [|s1 s2 s3 Hstep _ IH]; [reflexivity|].
  rewrite IH. apply step_length. exact Hstep.
Qed.


(** X15. Under every interleaving of N handlers that start together, the
    leads of a client that was within its capacity end at most N - 1 above
    it. *)
Theorem interleaved_overshoot_bound (db0 : gmap Z Row) hs0 db hs id r0 :
  steps (db0, hs0) (db, hs) ->
  Forall (fun h => hasStarted h = false) hs0 ->
  db0 !! id = Some r0 ->
  existing_leads r0 <= lead_capacity r0 ->
  exists r,
    db !! id = Some r
    /\ existing_leads r
       <= lead_capacity r0 + Z.max 0 (Z.of_nat (length hs0) - 1).
Proof.
  intros Hrun Hstart Hid Hcap.
  pose proof (RunInvariant_steps db0 _ _ Hrun (RunInvariant_start db0 hs0 Hstart))
    as (_ & _ & Hrows).
  pose proof (steps_length _ _ Hrun) as Hlen. cbn [snd] in Hlen.
  destruct (Hrows id r0 Hid) as (r & Hr & _ & _ & _ & _ & _ & Hbound).
  cbn [fst snd] in *.
  exists r. split; [assumption|].
  pose proof (countIf_bounds (pendingFor id) hs).
  pose proof (countIf_bounds hasStarted hs). lia.
Qed.

Lemma race_run : steps raceStart raceEnd.
Proof.
  eapply steps_trans; [exact race_reaches_first_update|].
  eapply steps_step; [exact race_last_step|apply steps_refl].
Qed.


Lemma interleaved_overshoot_bound_witness :
  (steps raceStart raceEnd
   /\ Forall (fun h => hasStarted h = false) raceStart.2
   /\ soloTable !! 7 = Some soloRow
   /\ existing_leads soloRow <= lead_capacity soloRow)
  /\ exists r,
       raceEnd.1 !! 7 = Some r
       /\ existing_leads r
          <= lead_capacity soloRow + Z.max 0 (Z.of_nat (length raceStart.2) - 1).
Proof.
  assert (H1 : Forall (fun h => hasStarted h = false) raceStart.2)
    by (repeat constructor).
  assert (H2 : soloTable !! 7 = Some soloRow) by reflexivity.
  assert (H3 : existing_leads soloRow <= lead_capacity soloRow) by (cbn; lia).
  split; [split; [exact race_run|auto]|].
  exact (interleaved_overshoot_bound soloTable raceStart.2 raceEnd.1 raceEnd.2
           7 soloRow race_run H1 H2 H3).
Defined.

End Interleavings.

(** ** A window that does not parse, and a lead read back *)

Section Blocking.






(** X17. A lead that assignLead gives is what retrieveClient shows next:
    the client of the answer with one lead more than the table held and
    its other columns as they were. *)
Theorem assign_then_retrieve numeric env db id db' idText :
  handle numeric (AssignLead env) db = (Replied StatusAccepted (JSONAssigned id), db') ->
  idText <> EmptyString -> numeric idText = Some id ->
  exists row,
    clients db !! id = Some row
    /\ retrieveClient numeric "GET" idText false db'
       = Replied StatusOK
           (JSONClient (mkClient id (name row) (working_hours row) (priority row)
                                 (lead_capacity row) (existing_leads row + 1))).
Proof.
  cbn [handle]. intros Hrun Hne Hnum.
  destruct (assignLead env (clients db)) as [r t] eqn:Hone.
  injection Hrun as Hcode Hbody <-.
  apply assignLead_cases in Hone as [[Hno ->]|(k & row & -> & Hrow & _ & ->)].
  - unfold isAccepted in Hno. rewrite Hcode in Hno. discriminate.
  - cbn in Hbody. injection Hbody as ->.
    exists row. split; [assumption|].
    unfold retrieveClient, scanClientById. cbn [String.eqb Ascii.eqb Bool.eqb negb].
    apply String.eqb_neq in Hne. rewrite Hne, Hnum. cbn [clients].
    unfold updateLeads. rewrite lookup_alter_eq, Hrow. reflexivity.
Qed.

Lemma assign_then_retrieve_witness :
  (handle sampleNumeric (AssignLead (quietAt twoPM)) (mkDatabase testClients 3)
   = (Replied StatusAccepted (JSONAssigned 2),
      mkDatabase (updateLeads 2 testClients) 3)
   /\ "2"%string <> EmptyString /\ sampleNumeric "2" = Some 2)
  /\ exists row,
       testClients !! 2 = Some row
       /\ retrieveClient sampleNumeric "GET" "2" false
            (mkDatabase (updateLeads 2 testClients) 3)
          = Replied StatusOK
              (JSONClient (mkClient 2 (name row) (working_hours row) (priority row)
                                    (lead_capacity row) (existing_leads row + 1))).
Proof.
  assert (Hrun : handle sampleNumeric (AssignLead (quietAt twoPM))
                   (mkDatabase testClients 3)
                 = (Replied StatusAccepted (JSONAssigned 2),
                    mkDatabase (updateLeads 2 testClients) 3))
    by (vm_compute; reflexivity).
  assert (Hne : "2"%string <> EmptyString) by discriminate.
  assert (Hnum : sampleNumeric "2" = Some 2) by reflexivity.
  split; [auto|].
  exact (assign_then_retrieve sampleNumeric _ _ _ _ "2" Hrun Hne Hnum).
Defined.

End Blocking.
